(** * Blackbody radiation notebook ([index.ipynb]): model and properties

    The notebook evaluates Planck's law over a fixed wavelength grid,
    marks the Wien peak, looks a display colour up in a static table and
    hands everything to matplotlib; an integer slider drives the redraw.

    Number model.  The notebook computes with Python floats.  Here every
    float is read as the exact number its literal denotes and every
    arithmetic operation as the exact operation: rationals ([Q]) where the
    code only adds, multiplies and divides (the wavelength grid, Wien's
    law), reals ([R]) where [np.exp] is involved (Planck's law).  Rounding
    of binary64 arithmetic is outside this model; integers ([T] from the
    slider, the table's [Temperature] column) are [Z].

    The exact reading is within rounding of the program only where nothing
    leaves the binary64 range: module [f64] keeps the infinities ([np.exp]
    overflows above 709.78, and the notebook's own comment records it for
    a grid starting at 1 nm), and the two readings are shown to agree on
    the supported domain, wavelengths from 1e-8 to 2e-6 and temperatures
    from 2100 to 20000.  Likewise an integer too large for a float (from
    about 1.8e308) makes the program raise [OverflowError]; statements about
    [maxlamda] and [g] are therefore made for bounded temperatures. *)

From Stdlib Require Import ZArith QArith Qabs Qround Qreals Reals Lra Lia.
From Stdlib Require Import List String Bool.
Import ListNotations.

Open Scope R_scope.

(** ** Exceptions *)

Inductive exn : Set :=
| ZeroDivisionError
| IndexError.

Inductive result (A : Type) : Type :=
| Ok (a : A)
| Raise (e : exn).

Arguments Ok {A} a.
Arguments Raise {A} e.

(** ** Physical constants ([B = sc.Boltzmann], [h = sc.h], [c = sc.c]) *)

Module sc.

(** Modelled from the spec: [scipy.constants] is not part of the sources;
    the spec gives k_B = 1.380649e-23 for the Boltzmann constant. *)
Definition Boltzmann : R := 1.380649e-23.

(** Modelled from the spec: [scipy.constants] is not part of the sources;
    the spec gives h = 6.62607015e-34 for the Planck constant. *)
Definition h : R := 6.62607015e-34.

(** Modelled from the spec: [scipy.constants] is not part of the sources;
    the spec gives c = 299792458 for the speed of light. *)
Definition c : R := 299792458.

End sc.

Definition B : R := sc.Boltzmann.
Definition h : R := sc.h.
Definition c : R := sc.c.

(** The value the notebook's markdown cell prints for the Boltzmann
    constant. *)
Definition documented_k_B : R := 1.480649e-23.

(** ** The radiance function

    [planck] is applied by [g] to the whole array [lamda]; numpy maps it
    over the elements, so the model is the scalar function and the curve
    is its [map].  This is the exact reading, every value finite;
    [f64.planck] below is the same code with the infinities of binary64,
    and the two agree on the supported domain. *)

Definition planck (wav T : R) : R :=
  let numerator := 2 * h * c ^ 2 in
  let exponent := exp (h * c / (wav * B * T)) in
  let denominator := wav ^ 5 * (exponent - 1) in
  numerator / denominator.

(** [planck(lamda, T)]: the array argument with an integer temperature. *)
Definition planck_array (wav : list Q) (T : Z) : list R :=
  map (fun w => planck (Q2R w) (IZR T)) wav.

(** ** Binary64 range

    The exact reading above has no infinities.  In the program [np.exp]
    returns [inf] once its argument passes [exp_max] and exactly 1.0 when
    the argument is within half a unit in the last place of zero; [inf]
    and a zero divisor then propagate by the IEEE 754 rules.  [f64] is the
    reading that keeps these cases: finite results are still exact, so
    rounding (and with it the underflow of finite results) stays outside
    the model, and so does the sign of zero. *)

Module f64.

Inductive float : Type :=
| Fin (r : R)
| PInf
| NInf
| NaN.

(** The largest argument at which binary64 [exp] is finite: the logarithm
    of the largest double. *)
Definition exp_max : R := 709.782712893384.

Definition exp (x : float) : float :=
  match x with
  | Fin r =>
      if Rlt_dec exp_max r then PInf
      else if Rle_dec (- / 2 ^ 54) r then
             if Rlt_dec r (/ 2 ^ 53) then Fin 1 else Fin (Rtrigo_def.exp r)
           else Fin (Rtrigo_def.exp r)
  | PInf => PInf
  | NInf => Fin 0
  | NaN => NaN
  end.

(** The infinity a finite number turns an infinity into, by its sign. *)
Definition signed (a : R) (pos neg : float) : float :=
  if Rlt_dec 0 a then pos else if Rlt_dec a 0 then neg else NaN.

Definition sub (x y : float) : float :=
  match x, y with
  | NaN, _ | _, NaN => NaN
  | Fin a, Fin b => Fin (a - b)
  | Fin _, PInf => NInf
  | Fin _, NInf => PInf
  | PInf, PInf => NaN
  | PInf, _ => PInf
  | NInf, NInf => NaN
  | NInf, _ => NInf
  end.

Definition mul (x y : float) : float :=
  match x, y with
  | NaN, _ | _, NaN => NaN
  | Fin a, Fin b => Fin (a * b)
  | Fin a, PInf | PInf, Fin a => signed a PInf NInf
  | Fin a, NInf | NInf, Fin a => signed a NInf PInf
  | PInf, PInf | NInf, NInf => PInf
  | PInf, NInf | NInf, PInf => NInf
  end.

Definition div (x y : float) : float :=
  match x, y with
  | NaN, _ | _, NaN => NaN
  | Fin a, Fin b => if Req_dec_T b 0 then signed a PInf NInf else Fin (a / b)
  | Fin _, PInf | Fin _, NInf => Fin 0
  | PInf, Fin b => if Rle_dec 0 b then PInf else NInf
  | NInf, Fin b => if Rle_dec 0 b then NInf else PInf
  | PInf, _ | NInf, _ => NaN
  end.

Definition planck (wav T : R) : float :=
  let numerator := Fin (2 * h * c ^ 2) in
  let exponent :=
    exp (div (Fin (h * c)) (mul (mul (Fin wav) (Fin B)) (Fin T))) in
  let denominator := mul (Fin (wav ^ 5)) (sub exponent (Fin 1)) in
  div numerator denominator.

End f64.

(** ** Wien's law

    Python raises [ZeroDivisionError] when a float is divided by the
    integer zero.  It raises [OverflowError] when the integer is too large
    to convert to a float (from about 1.8e308): that case is not modelled,
    and the statements below bound the temperature. *)

Definition maxlamda (T : Q) : result Q :=
  if Qeq_bool T 0 then Raise ZeroDivisionError
  else Ok (((2.898 * 1e-3) / T)%Q).

(** ** The wavelength grid

    [np.arange start stop step] has [ceil ((stop - start) / step)] elements
    (none when that is negative), the [i]-th being [start + i * step].
    The quotient is taken exactly here; numpy takes it in binary64 and
    refuses a zero step.  For the notebook's arguments the binary64
    quotient is exactly 398 as well. *)

Definition arange (start stop step : Q) : list Q :=
  let n := Qceiling ((stop - start) / step) in
  map (fun i => (start + inject_Z (Z.of_nat i) * step)%Q)
      (seq 0 (Z.to_nat n)).

Definition lamda : list Q := arange 1e-8 2e-6 5e-9.

(** ** The temperature slider *)

Record IntSlider : Set := {
  min : Z;
  max : Z;
  value : Z;
  step : Z
}.

Definition T_slider : IntSlider :=
  {| min := 2100; max := 20000; value := 3000; step := 100 |}.

(** Modelled from the spec: [ipywidgets.IntSlider] is not part of the
    sources; the spec describes it as an integer control with enforced
    bounds [min, max] moved in increments of [step], so the handle rests
    on [min], [min + step], ... as long as [max] is not exceeded. *)
Definition positions (s : IntSlider) : list Z :=
  map (fun k => (min s + Z.of_nat k * step s)%Z)
      (seq 0 (S (Z.to_nat ((max s - min s) / step s)))).

(** ** The colour table

    [temp_to_rgb] is unpickled from [temp_to_rgb.data], which is not part
    of the sources: the table is an argument of everything that reads it. *)

Record RGB : Set := { red : Z; green : Z; blue : Z }.

Record Row : Set := { Temperature : Z; rgb : RGB }.

Definition DataFrame : Set := list Row.

(** [df.loc[df["Temperature"] == T, "rgb"]] *)
Definition loc_rgb (df : DataFrame) (T : Z) : list RGB :=
  map rgb (filter (fun r => (Temperature r =? T)%Z) df).

(** [.iloc[0]] *)
Definition iloc0 {A : Type} (s : list A) : result A :=
  match s with
  | [] => Raise IndexError
  | x :: _ => Ok x
  end.

Definition colorval (df : DataFrame) (T : Z) : result RGB :=
  iloc0 (loc_rgb df T).

(** ** The rendering callback

    [g] talks to matplotlib's [pyplot].  The model records the drawing
    calls [g] makes, in order, and stops at the first exception.  The two
    numbers [g] reads back from the axes ([ax.get_xlim], [ax.get_ylim],
    lower ends discarded) depend on whatever the figure holds at that
    moment: they are arguments.  The run is modelled for temperatures that
    convert to a float; beyond that the program raises [OverflowError]
    inside [planck], before the first drawing call. *)

Inductive Call : Type :=
| plot (xs ys : list R) (label_K : Z)
| axvline (x : R) (label_nm : R)
| grid
| xlabel
| ylabel
| title
| axvspan (xmin xmax : R) (facecolor : string) (alpha : R)
| annotate (text : string) (x y : R)
| add_patch (x y width height : R) (facecolor : RGB)
| legend
| show.

Definition plt (A : Type) : Type := (list Call * result A)%type.

Definition ret {A : Type} (a : A) : plt A := ([], Ok a).

Definition bind {A B : Type} (m : plt A) (k : A -> plt B) : plt B :=
  match m with
  | (tr, Ok a) => let (tr', r) := k a in (tr ++ tr', r)
  | (tr, Raise e) => (tr, Raise e)
  end.

Definition call (c : Call) : plt unit := ([c], Ok tt).

Definition lift {A : Type} (r : result A) : plt A := ([], r).

Declare Scope plt_scope.
Delimit Scope plt_scope with plt.
Notation "x <- m ;; k" := (bind m (fun x => k))
  (at level 61, m at next level, right associativity) : plt_scope.
Notation "m ;; k" := (bind m (fun _ => k))
  (at level 61, right associativity) : plt_scope.

Section Callback.

(** What the names [lamda] and [temp_to_rgb] are bound to when [g] runs,
    and the limits the axes report. *)
Variable wav : list Q.
Variable temp_to_rgb : DataFrame.
Variables curxmax curymax : R.

Definition g_on (T : Z) : plt unit :=
  (call (plot (map (fun w => Q2R w * 1e9) wav) (planck_array wav T) T) ;;
   max_lamda <- lift (maxlamda (inject_Z T)) ;;
   call (axvline (Q2R max_lamda * 1e9) (Q2R max_lamda * 1e9)) ;;
   call grid ;;
   call xlabel ;;
   call ylabel ;;
   call title ;;
   call (axvspan 700 curxmax "#ff0000" 0.05) ;;
   call (axvspan 635 700 "#ff0000" 0.5) ;;
   call (axvspan 590 635 "#ff7f00" 0.5) ;;
   call (axvspan 560 590 "#ffff00" 0.5) ;;
   call (axvspan 520 560 "#00ff00" 0.5) ;;
   call (axvspan 490 520 "#00ffff" 0.5) ;;
   call (axvspan 450 490 "#0000ff" 0.5) ;;
   call (axvspan 400 450 "#7F00FF" 0.5) ;;
   call (axvspan 10 400 "#7F00FF" 0.05) ;;
   call (annotate "Infrared" 1000 (curymax / 2)) ;;
   call (annotate "Ultraviolet" 150 (curymax / 2)) ;;
   colorval <- lift (colorval temp_to_rgb T) ;;
   call (annotate "Object Color" 1800 (curymax / 2 + 0.22 * curymax)) ;;
   call (add_patch 1750 (curymax / 2) 300 (0.2 * curymax) colorval) ;;
   call legend ;;
   call show)%plt.

End Callback.

(** [g] with [lamda] bound to the grid the notebook builds. *)
Definition g : DataFrame -> R -> R -> Z -> plt unit := g_on lamda.

(** The curve data of a run: the arguments of its [plot] calls. *)
Fixpoint plotted (tr : list Call) : list (list R * list R) :=
  match tr with
  | [] => []
  | plot xs ys _ :: tr' => (xs, ys) :: plotted tr'
  | _ :: tr' => plotted tr'
  end.

(** [interactive g T=IntSlider ...] calls [g] with the slider's value. *)
Definition interactive_plot (df : DataFrame) (xmax ymax : R)
    (s : IntSlider) : plt unit :=
  g df xmax ymax (value s).

(** ** The kernel between two runs

    What a run of [g] can read and what it leaves behind: the module-level
    arrays, the figure pyplot is currently drawing into, and the figures
    already displayed.  A drawing call adds to the current figure; [show]
    displays that figure and starts an empty one; after an exception the
    calls made so far stay in the current figure. *)

Record Kernel : Type := {
  kernel_lamda : list Q;
  kernel_temp_to_rgb : DataFrame;
  gcf : list Call;
  displayed : list (list Call)
}.

Definition draw_call (k : Kernel) (c : Call) : Kernel :=
  match c with
  | show =>
      {| kernel_lamda := kernel_lamda k;
         kernel_temp_to_rgb := kernel_temp_to_rgb k;
         gcf := [];
         displayed := displayed k ++ [gcf k] |}
  | _ =>
      {| kernel_lamda := kernel_lamda k;
         kernel_temp_to_rgb := kernel_temp_to_rgb k;
         gcf := gcf k ++ [c];
         displayed := displayed k |}
  end.

Definition draw (tr : list Call) (k : Kernel) : Kernel :=
  fold_left draw_call tr k.

(** One run of the callback in a kernel.  [limits] is what [ax.get_xlim]
    and [ax.get_ylim] report (upper ends) for a figure: matplotlib's
    autoscaling is not part of the sources.  [g] asks right after its
    [plot] call. *)
Definition run_g (limits : list Call -> R * R) (T : Z) (k : Kernel)
    : result unit * Kernel :=
  let wav := kernel_lamda k in
  let fig :=
    (gcf k ++ [plot (map (fun w => Q2R w * 1e9) wav) (planck_array wav T) T])
      %list in
  let run :=
    g_on wav (kernel_temp_to_rgb k) (fst (limits fig)) (snd (limits fig)) T in
  (snd run, draw (fst run) k).

(** The curve data of everything drawn so far, oldest first. *)
Definition curves (k : Kernel) : list (list R * list R) :=
  plotted (List.concat (displayed k) ++ gcf k).

(** * Auxiliary definitions

    Nothing below is part of the notebook: these are the checkers and the
    rational enclosures the proofs compute with. *)

(** ** Peak marker and a sample colour table *)

Definition Qltb (a b : Q) : bool :=
  match (a ?= b)%Q with Lt => true | _ => false end.

Definition peak_inside (T : Z) : bool :=
  match maxlamda (inject_Z T) with
  | Ok m => Qltb (hd 0%Q lamda) m && Qltb m (last lamda 0%Q)
  | Raise _ => false
  end.

(** A table with one row per slider temperature (the colour depends on the
    temperature only so that the rows differ). *)
Definition sample_table : DataFrame :=
  map (fun T => {| Temperature := T;
                   rgb := {| red := 255; green := T / 100; blue := 0 |} |})
      (positions T_slider).

(** A kernel right after the notebook's first cell, nothing drawn yet. *)
Definition fresh_kernel : Kernel :=
  {| kernel_lamda := lamda; kernel_temp_to_rgb := sample_table;
     gcf := []; displayed := [] |}.

(** ** Planck's law in the variable x = h c / (wav k_B T)

    [planck wav T = K T * G x]; [G'] is the derivative of [G] and [psi]
    carries its sign. *)

Definition G (x : R) : R := x ^ 5 / (exp x - 1).

Definition G' (x : R) : R :=
  x ^ 4 * (5 * (exp x - 1) - x * exp x) / (exp x - 1) ^ 2.

Definition psi (x : R) : R := 5 * (exp x - 1) - x * exp x.

Definition K (T : R) : R := 2 * h * c ^ 2 * (B * T / (h * c)) ^ 5.

(** ** Rational enclosures of the exponential

    For x = a/b with 0 <= x < 2^k,
    (1 + x/2^k)^(2^k) <= e^x <= (1 - x/2^k)^-(2^k).
    Both sides are evaluated by [k] squarings on integers scaled by [s],
    rounded down for the lower and up for the upper bound. *)

Definition sqr_down (s : positive) (m : Z) : Z := (m * m / Zpos s)%Z.

Definition sqr_up (s : positive) (m : Z) : Z :=
  ((m * m + Zpos s - 1) / Zpos s)%Z.

Fixpoint repeat_sq (sq : Z -> Z) (k : nat) (m : Z) : Z :=
  match k with
  | O => m
  | S k' => repeat_sq sq k' (sq m)
  end.

Definition exp_lo (s : positive) (k : nat) (x : Q) : Q :=
  let d := (Zpos (Qden x) * 2 ^ Z.of_nat k)%Z in
  repeat_sq (sqr_down s) k ((d + Qnum x) * Zpos s / d)%Z # s.

Definition exp_hi (s : positive) (k : nat) (x : Q) : Q :=
  let d := (Zpos (Qden x) * 2 ^ Z.of_nat k)%Z in
  repeat_sq (sqr_up s) k
    ((d * Zpos s + (d - Qnum x) - 1) / (d - Qnum x))%Z # s.

Definition exp_arg_ok (k : nat) (x : Q) : bool :=
  (0 <=? Qnum x)%Z && (Qnum x <? Zpos (Qden x) * 2 ^ Z.of_nat k)%Z.

Definition scale : positive := (2 ^ 80)%positive.
Definition halvings : nat := 36.

(** ** Rational enclosures of [planck]

    The exponent, the numerator and bounds of the divisor of [planck] at a
    rational wavelength and an integer temperature. *)

Definition exponent_Q (w : Q) (T : Z) : Q :=
  (6.62607015e-34 * 299792458 / (w * 1.380649e-23 * inject_Z T))%Q.

Definition pow5 (w : Q) : Q := (w * w * w * w * w)%Q.

Definition numerator_Q : Q :=
  (2 * 6.62607015e-34 * (299792458 * 299792458))%Q.

Definition denominator_lo (w : Q) (T : Z) : Q :=
  (pow5 w * (exp_lo scale halvings (exponent_Q w T) - 1))%Q.

Definition denominator_hi (w : Q) (T : Z) : Q :=
  (pow5 w * (exp_hi scale halvings (exponent_Q w T) - 1))%Q.

Definition planck_lo (w : Q) (T : Z) : Q :=
  (numerator_Q / denominator_hi w T)%Q.

Definition planck_hi (w : Q) (T : Z) : Q :=
  (numerator_Q / denominator_lo w T)%Q.

Definition enclosed (w : Q) (T : Z) : bool :=
  exp_arg_ok halvings (exponent_Q w T) && Qltb 0 (denominator_lo w T).

(** [below w1 w2 T]: the enclosures separate the two divisors, the one at
    [w2] being the smaller, hence [planck] at [w1] the smaller. *)
Definition below (w1 w2 : Q) (T : Z) : bool :=
  exp_arg_ok halvings (exponent_Q w1 T)
  && exp_arg_ok halvings (exponent_Q w2 T)
  && Qltb (denominator_hi w2 T) (denominator_lo w1 T).

(** ** The search for the largest sample

    [G] has its maximum at the root 4.9651... of [psi]; [bracket_lo] and
    [bracket_hi] enclose that root. *)

Definition bracket_lo : Q := 4.9649.
Definition bracket_hi : Q := 4.9653.

Definition bracket_ok : bool :=
  exp_arg_ok halvings bracket_lo
  && exp_arg_ok halvings bracket_hi
  && Qltb 5 ((5 - bracket_lo) * exp_lo scale halvings bracket_lo)
  && Qltb ((5 - bracket_hi) * exp_hi scale halvings bracket_hi) 5.

(** The [i]-th element of [lamda] in closed form. *)
Definition sample (i : nat) : Q :=
  (1e-8 + inject_Z (Z.of_nat i) * 5e-9)%Q.

(** Index of the last sample whose exponent is still above the bracket. *)
Definition last_left (T : Z) : nat :=
  Z.to_nat
    (Qfloor
       ((6.62607015e-34 * 299792458
         / (bracket_hi * 1.380649e-23 * inject_Z T) - 1e-8) / 5e-9)%Q).

Definition near_peak (T : Z) (j : nat) : bool :=
  match maxlamda (inject_Z T) with
  | Ok m => Qltb (Qabs (sample j - m)%Q) 5e-9%Q
  | Raise _ => false
  end.

(** The samples up to [last_left T] lie left of the bracket, the others
    right of it; the enclosures decide which of the two samples next to
    the bracket is the larger. *)
Definition peak_index (T : Z) : option nat :=
  let j := last_left T in
  if (S j <? 398)%nat
     && Qle_bool bracket_hi (exponent_Q (sample j) T)
     && Qle_bool (exponent_Q (sample (S j)) T) bracket_lo
  then
    if below (sample j) (sample (S j)) T then
      if near_peak T (S j) then Some (S j) else None
    else if below (sample (S j)) (sample j) T then
      if near_peak T j then Some j else None
    else None
  else None.

Definition has_peak (T : Z) : bool :=
  match peak_index T with Some _ => true | None => false end.

(** ** Reading a run of the callback *)

(** Band limits of the [axvspan] calls of a run. *)
Fixpoint spans (tr : list Call) : list (R * R) :=
  match tr with
  | [] => []
  | axvspan a b _ _ :: tr' => (a, b) :: spans tr'
  | _ :: tr' => spans tr'
  end.

(** The calls [g] makes between the peak marker and the colour lookup. *)
Definition decorations (curxmax curymax : R) : list Call :=
  [grid; xlabel; ylabel; title;
   axvspan 700 curxmax "#ff0000" 0.05;
   axvspan 635 700 "#ff0000" 0.5;
   axvspan 590 635 "#ff7f00" 0.5;
   axvspan 560 590 "#ffff00" 0.5;
   axvspan 520 560 "#00ff00" 0.5;
   axvspan 490 520 "#00ffff" 0.5;
   axvspan 450 490 "#0000ff" 0.5;
   axvspan 400 450 "#7F00FF" 0.5;
   axvspan 10 400 "#7F00FF" 0.05;
   annotate "Infrared" 1000 (curymax / 2);
   annotate "Ultraviolet" 150 (curymax / 2)].

(** * Properties *)

(** ** Planck's law *)

Lemma hc_pos : 0 < h * c.
Proof. unfold h, c, sc.h, sc.c. lra. Qed.

Lemma numerator_pos : 0 < 2 * h * c ^ 2.
Proof. unfold h, c, sc.h, sc.c. lra. Qed.

Lemma exponent_arg_pos (wav T : R) :
  0 < wav -> 0 < T -> 0 < h * c / (wav * B * T).
Proof.
  intros Hw HT.
  apply Rdiv_lt_0_compat; [exact hc_pos|].
  assert (0 < B) by (unfold B, sc.Boltzmann; lra).
  apply Rmult_lt_0_compat; [apply Rmult_lt_0_compat|]; assumption.
Qed.

Lemma exp_gt_1 (x : R) : 0 < x -> 1 < exp x.
Proof.
  intro Hx. pose proof (exp_ineq1_le x). lra.
Qed.

Lemma denominator_pos (wav T : R) :
  0 < wav -> 0 < T ->
  0 < wav ^ 5 * (exp (h * c / (wav * B * T)) - 1).
Proof.
  intros Hw HT.
  apply Rmult_lt_0_compat.
  - apply pow_lt; assumption.
  - pose proof (exp_gt_1 _ (exponent_arg_pos wav T Hw HT)). lra.
Qed.



(** ** Wien's law *)

(** C2: for every temperature of the supported range, from 2100 to 20000,
    [maxlamda T] raises nothing and returns 2.898e-3 / T. *)
Theorem maxlamda_wien (T : Q) :
  (2100 <= T)%Q -> (T <= 20000)%Q ->
  exists m : Q, maxlamda T = Ok m /\ (m == 2.898e-3 / T)%Q.
Proof.
  intros Hlo Hhi.
  assert (HT : (0 < T)%Q) by (apply Qlt_le_trans with 2100%Q; [reflexivity | exact Hlo]).
  unfold maxlamda.
  destruct (Qeq_bool T 0) eqn:E.
  - apply Qeq_bool_eq in E. rewrite E in HT.
    exfalso. revert HT. apply Qlt_irrefl.
  - eexists. split; [reflexivity|].
    apply Qmult_comp; [reflexivity | reflexivity].
Qed.

Lemma maxlamda_wien_witness :
  (2100 <= 3000)%Q /\ (3000 <= 20000)%Q /\
  exists m : Q, maxlamda 3000 = Ok m /\ (m == 2.898e-3 / 3000)%Q.
Proof.
  assert (H1 : (2100 <= 3000)%Q) by discriminate.
  assert (H2 : (3000 <= 20000)%Q) by discriminate.
  split; [exact H1|]. split; [exact H2|].
  exact (maxlamda_wien 3000 H1 H2).
Defined.

(** ** The wavelength grid *)

Lemma lamda_length : List.length lamda = 398%nat.
Proof. reflexivity. Qed.

Lemma lamda_nth (i : nat) :
  (i < 398)%nat ->
  nth i lamda 0%Q = (1e-8 + inject_Z (Z.of_nat i) * 5e-9)%Q.
Proof.
  intro Hi.
  unfold lamda, arange.
  change (Z.to_nat (Qceiling ((2e-6 - 1e-8) / 5e-9))) with 398%nat.
  set (f := fun i0 : nat => (1e-8 + inject_Z (Z.of_nat i0) * 5e-9)%Q).
  rewrite (nth_indep _ _ (f 0%nat))
    by (rewrite List.length_map, List.length_seq; exact Hi).
  rewrite map_nth. rewrite seq_nth by exact Hi. reflexivity.
Qed.

Lemma lamda_In (w : Q) :
  In w lamda ->
  exists i : nat,
    (i < 398)%nat /\ w = (1e-8 + inject_Z (Z.of_nat i) * 5e-9)%Q.
Proof.
  unfold lamda, arange.
  change (Z.to_nat (Qceiling ((2e-6 - 1e-8) / 5e-9))) with 398%nat.
  intro H. apply in_map_iff in H. destruct H as [i [Hi Hin]].
  exists i. apply in_seq in Hin. split; [lia | symmetry; exact Hi].
Qed.

Lemma inject_Z_S (i : nat) :
  (inject_Z (Z.of_nat (S i)) == inject_Z (Z.of_nat i) + 1)%Q.
Proof.
  rewrite Nat2Z.inj_succ. unfold Z.succ. rewrite inject_Z_plus. reflexivity.
Qed.

(** C6: the wavelength samples are a fixed sequence of 398 values, the
    [i]-th being 1e-8 + i * 5e-9: consecutive samples differ by exactly
    5e-9, the sequence is ordered, starts at 1e-8, ends at 1.995e-6, every
    sample lies in the range from 1e-8 to 2e-6, and one more step from the
    last sample is the end 2e-6 of that range. *)
Theorem lamda_grid :
  List.length lamda = 398%nat
  /\ (forall i : nat, (i < 398)%nat ->
        (nth i lamda 0 == 1e-8 + inject_Z (Z.of_nat i) * 5e-9)%Q)
  /\ (forall i : nat, (S i < 398)%nat ->
        (nth (S i) lamda 0 - nth i lamda 0 == 5e-9)%Q
        /\ (nth i lamda 0 < nth (S i) lamda 0)%Q)
  /\ (hd 0 lamda == 1e-8)%Q
  /\ (last lamda 0 == 1.995e-6)%Q
  /\ (last lamda 0 + 5e-9 == 2e-6)%Q
  /\ (forall w : Q, In w lamda -> (1e-8 <= w)%Q /\ (w < 2e-6)%Q).
Proof.
  split; [exact lamda_length|].
  split; [intros i Hi; rewrite (lamda_nth i Hi); reflexivity|].
  split.
  { intros i Hi.
    rewrite (lamda_nth (S i) Hi), (lamda_nth i) by lia.
    rewrite inject_Z_S.
    split; [ring|].
    rewrite <- (Qplus_0_r (1e-8 + inject_Z (Z.of_nat i) * 5e-9)) at 1.
    setoid_replace (1e-8 + (inject_Z (Z.of_nat i) + 1) * 5e-9)%Q
      with ((1e-8 + inject_Z (Z.of_nat i) * 5e-9) + 5e-9)%Q by ring.
    apply Qplus_lt_r. reflexivity. }
  split; [reflexivity|].
  split; [vm_compute; reflexivity|].
  split; [vm_compute; reflexivity|].
  intros w Hw. apply lamda_In in Hw. destruct Hw as [i [Hi ->]].
  split.
  - rewrite <- (Qplus_0_r 1e-8) at 1. apply Qplus_le_r.
    apply Qmult_le_0_compat; [|discriminate].
    unfold Qle; simpl. lia.
  - apply Qlt_le_trans with (1e-8 + 398 * 5e-9)%Q; [|discriminate].
    apply Qplus_lt_r. apply Qmult_lt_compat_r; [reflexivity|].
    unfold Qlt; simpl. lia.
Qed.

(** ** The slider *)

Lemma positions_T_slider (T : Z) :
  In T (positions T_slider) <->
  (2100 <= T <= 20000)%Z /\ ((T - 2100) mod 100 = 0)%Z.
Proof.
  unfold positions, T_slider; cbn [min max step].
  change (S (Z.to_nat ((20000 - 2100) / 100))) with 180%nat.
  rewrite in_map_iff. split.
  - intros [k [<- Hk]]. apply in_seq in Hk.
    split; [lia|].
    replace (2100 + Z.of_nat k * 100 - 2100)%Z with (Z.of_nat k * 100)%Z
      by ring.
    apply Z_mod_mult.
  - intros [Hr Hm].
    exists (Z.to_nat ((T - 2100) / 100)).
    pose proof (Z_div_mod_eq_full (T - 2100) 100) as E.
    rewrite Hm in E.
    assert (0 <= (T - 2100) / 100 < 180)%Z by lia.
    split.
    + rewrite Z2Nat.id by lia. lia.
    + apply in_seq. lia.
Qed.

(** C9: the temperature control is one integer slider with bounds 2100 and
    20000, step 100 and initial value 3000; the temperatures it can pass to
    the callback are exactly 2100, 2200, ..., 20000, the initial value 3000
    is one of them, and the callback is run on the slider's value. *)
Theorem slider_temperatures :
  min T_slider = 2100%Z
  /\ max T_slider = 20000%Z
  /\ step T_slider = 100%Z
  /\ value T_slider = 3000%Z
  /\ (forall T : Z,
        In T (positions T_slider) <->
        (2100 <= T <= 20000)%Z /\ exists k : Z, T = (2100 + 100 * k)%Z)
  /\ In (value T_slider) (positions T_slider)
  /\ (forall (df : DataFrame) (xmax ymax : R),
        interactive_plot df xmax ymax T_slider = g df xmax ymax 3000).
Proof.
  repeat (split; [reflexivity|]).
  split.
  { intro T. rewrite positions_T_slider. split.
    - intros [Hr Hm]. split; [exact Hr|].
      exists ((T - 2100) / 100)%Z.
      pose proof (Z_div_mod_eq_full (T - 2100) 100). lia.
    - intros [Hr [k ->]]. split; [exact Hr|].
      replace (2100 + 100 * k - 2100)%Z with (k * 100)%Z by ring.
      apply Z_mod_mult. }
  split.
  - apply positions_T_slider. cbn. split; [lia | reflexivity].
  - reflexivity.
Qed.

(** ** The peak marker *)

Lemma Qltb_lt (a b : Q) : Qltb a b = true -> (a < b)%Q.
Proof.
  unfold Qltb. intro H. apply Qlt_alt.
  destruct (a ?= b)%Q; [discriminate | reflexivity | discriminate].
Qed.

Lemma peak_inside_all :
  forallb peak_inside (positions T_slider) = true.
Proof. vm_compute. reflexivity. Qed.

(** C10: for every temperature the slider can pass, [maxlamda] returns a
    wavelength strictly between the first sample 1e-8 and the last sample
    (which is below 2e-6); it is at least 1.449e-7, the value at 20000, and
    at most 1.38e-6, the value at 2100. *)
Theorem peak_in_range (T : Z) :
  In T (positions T_slider) ->
  exists m : Q,
    maxlamda (inject_Z T) = Ok m
    /\ (hd 0 lamda < m)%Q /\ (m < last lamda 0)%Q
    /\ (last lamda 0 < 2e-6)%Q
    /\ (1.449e-7 <= m)%Q /\ (m <= 1.38e-6)%Q
    /\ maxlamda 20000 = Ok ((2.898 * 1e-3) / 20000)%Q
    /\ ((2.898 * 1e-3) / 20000 == 1.449e-7)%Q
    /\ maxlamda 2100 = Ok ((2.898 * 1e-3) / 2100)%Q
    /\ ((2.898 * 1e-3) / 2100 == 1.38e-6)%Q.
Proof.
  intro HT.
  pose proof peak_inside_all as Hall.
  rewrite forallb_forall in Hall. specialize (Hall T HT).
  unfold peak_inside in Hall.
  apply positions_T_slider in HT. destruct HT as [[Hlo Hhi] _].
  destruct (maxlamda (inject_Z T)) as [m|e] eqn:Em; [|discriminate].
  exists m. split; [reflexivity|].
  apply andb_prop in Hall. destruct Hall as [E1 E2].
  split; [apply Qltb_lt; exact E1|].
  split; [apply Qltb_lt; exact E2|].
  split; [reflexivity|].
  assert (Hm : m = ((2.898 * 1e-3) / inject_Z T)%Q).
  { unfold maxlamda in Em. destruct (Qeq_bool (inject_Z T) 0); congruence. }
  assert (HTpos : (0 < inject_Z T)%Q).
  { change 0%Q with (inject_Z 0). rewrite <- Zlt_Qlt. lia. }
  split.
  { rewrite Hm. apply Qle_shift_div_l; [exact HTpos|].
    apply Qle_trans with (1.449e-7 * inject_Z 20000)%Q; [|discriminate].
    apply Qmult_le_l; [reflexivity|]. rewrite <- Zle_Qle. exact Hhi. }
  split.
  { rewrite Hm. apply Qle_shift_div_r; [exact HTpos|].
    apply Qle_trans with (1.38e-6 * inject_Z 2100)%Q; [discriminate|].
    apply Qmult_le_l; [reflexivity|]. rewrite <- Zle_Qle. exact Hlo. }
  repeat split.
Qed.

Lemma peak_in_range_witness :
  In 3000%Z (positions T_slider) /\
  exists m : Q,
    maxlamda (inject_Z 3000) = Ok m
    /\ (hd 0 lamda < m)%Q /\ (m < last lamda 0)%Q.
Proof.
  assert (H : In 3000%Z (positions T_slider)).
  { apply positions_T_slider. split; [lia | reflexivity]. }
  split; [exact H|].
  destruct (peak_in_range 3000 H) as [m [E [H1 [H2 _]]]].
  exists m. split; [exact E|]. split; [exact H1 | exact H2].
Defined.

(** ** The colour lookup *)

Lemma loc_rgb_In (df : DataFrame) (T : Z) (v : RGB) :
  In v (loc_rgb df T) <->
  exists r : Row, In r df /\ Temperature r = T /\ rgb r = v.
Proof.
  unfold loc_rgb. rewrite in_map_iff. split.
  - intros [r [Hv Hr]]. apply filter_In in Hr. destruct Hr as [Hin Heq].
    exists r. apply Z.eqb_eq in Heq. auto.
  - intros [r [Hin [HT Hv]]]. exists r. split; [exact Hv|].
    apply filter_In. split; [exact Hin | apply Z.eqb_eq; exact HT].
Qed.

Lemma colorval_Ok (df : DataFrame) (T : Z) (v : RGB) :
  colorval df T = Ok v ->
  exists r : Row, In r df /\ Temperature r = T /\ rgb r = v.
Proof.
  unfold colorval, iloc0. intro H.
  apply loc_rgb_In.
  destruct (loc_rgb df T) as [|x s]; [discriminate|].
  injection H as ->. left. reflexivity.
Qed.

Lemma colorval_found (df : DataFrame) (T : Z) :
  (exists r : Row, In r df /\ Temperature r = T) ->
  exists v : RGB, colorval df T = Ok v.
Proof.
  intros [r [Hin HT]].
  assert (H : In (rgb r) (loc_rgb df T)).
  { apply loc_rgb_In. exists r. auto. }
  unfold colorval, iloc0.
  destruct (loc_rgb df T) as [|x s]; [contradiction|].
  exists x. reflexivity.
Qed.

Lemma colorval_missing (df : DataFrame) (T : Z) :
  (forall r : Row, In r df -> Temperature r <> T) ->
  colorval df T = Raise IndexError.
Proof.
  intro Hno. unfold colorval, iloc0.
  destruct (loc_rgb df T) as [|x s] eqn:E; [reflexivity|].
  assert (H : In x (loc_rgb df T)) by (rewrite E; left; reflexivity).
  apply loc_rgb_In in H. destruct H as [r [Hin [HT _]]].
  exfalso. exact (Hno r Hin HT).
Qed.

(** C5: the colour lookup matches the integer temperature exactly against
    the [Temperature] column.  If the table has a row for every temperature
    the slider can pass, then for each of them the lookup returns one RGB
    triple, the one of a row with exactly that temperature; whatever the
    table, a returned triple comes from a row with exactly the requested
    temperature, and a temperature without a row raises [IndexError]. *)
Theorem color_lookup (df : DataFrame) :
  (forall T : Z, In T (positions T_slider) ->
     exists r : Row, In r df /\ Temperature r = T) ->
  (forall T : Z, In T (positions T_slider) ->
     exists r : Row,
       In r df /\ Temperature r = T /\ colorval df T = Ok (rgb r))
  /\ (forall (T : Z) (v : RGB), colorval df T = Ok v ->
        exists r : Row, In r df /\ Temperature r = T /\ rgb r = v)
  /\ (forall T : Z, (forall r : Row, In r df -> Temperature r <> T) ->
        colorval df T = Raise IndexError).
Proof.
  intro Hrows. split; [|split].
  - intros T HT.
    destruct (colorval_found df T (Hrows T HT)) as [v Hv].
    destruct (colorval_Ok df T v Hv) as [r [Hin [Hr Hrgb]]].
    exists r. rewrite Hrgb. auto.
  - exact (colorval_Ok df).
  - exact (colorval_missing df).
Qed.

Lemma color_lookup_witness :
  (forall T : Z, In T (positions T_slider) ->
     exists r : Row, In r sample_table /\ Temperature r = T)
  /\ colorval sample_table 3000
     = Ok {| red := 255; green := 30; blue := 0 |}
  /\ colorval sample_table 3050 = Raise IndexError.
Proof.
  assert (H : forall T : Z, In T (positions T_slider) ->
                exists r : Row, In r sample_table /\ Temperature r = T).
  { intros T HT.
    exists {| Temperature := T;
              rgb := {| red := 255; green := T / 100; blue := 0 |} |}.
    split; [|reflexivity].
    unfold sample_table. apply in_map_iff. exists T. auto. }
  split; [exact H|].
  pose proof (color_lookup sample_table H) as [_ [_ Hmiss]].
  split; [reflexivity|].
  apply Hmiss.
  intros r Hr. unfold sample_table in Hr. apply in_map_iff in Hr.
  destruct Hr as [T [<- HT]]. cbn.
  apply positions_T_slider in HT. destruct HT as [_ Hm].
  intro E. subst T. vm_compute in Hm. discriminate.
Defined.

(** ** The callback's curve *)

Lemma plotted_app (tr1 tr2 : list Call) :
  plotted (tr1 ++ tr2) = (plotted tr1 ++ plotted tr2)%list.
Proof.
  induction tr1 as [|c tr1 IH]; [reflexivity|].
  destruct c; cbn; rewrite ?IH; reflexivity.
Qed.

Lemma plotted_bind_call_plot {B : Type} (xs ys : list R) (l : Z)
    (k : plt B) :
  plotted (fst (call (plot xs ys l) ;; k)%plt)
  = (xs, ys) :: plotted (fst k).
Proof.
  unfold bind, call. destruct k as [tr r]. reflexivity.
Qed.

Lemma plotted_bind_call_other {B : Type} (c : Call) (k : plt B) :
  plotted [c] = [] ->
  plotted (fst (call c ;; k)%plt) = plotted (fst k).
Proof.
  intro Hc. unfold bind, call. destruct k as [tr r]. cbn [fst].
  rewrite plotted_app, Hc. reflexivity.
Qed.

Lemma plotted_bind_lift {A B : Type} (r : result A) (k : A -> plt B) :
  (forall a : A, plotted (fst (k a)) = []) ->
  plotted (fst (bind (lift r) k)) = [].
Proof.
  intro Hk. unfold bind, lift. destruct r as [a|e]; [|reflexivity].
  specialize (Hk a). destruct (k a) as [tr r']. exact Hk.
Qed.

Lemma g_on_plotted (wav : list Q) (df : DataFrame) (xmax ymax : R) (T : Z) :
  plotted (fst (g_on wav df xmax ymax T))
  = [(map (fun w => Q2R w * 1e9) wav, planck_array wav T)].
Proof.
  unfold g_on. rewrite plotted_bind_call_plot. f_equal.
  apply plotted_bind_lift. intro m.
  repeat (rewrite plotted_bind_call_other by reflexivity).
  apply plotted_bind_lift. intro v.
  repeat (rewrite plotted_bind_call_other by reflexivity).
  reflexivity.
Qed.

Lemma g_plotted (df : DataFrame) (xmax ymax : R) (T : Z) :
  plotted (fst (g df xmax ymax T))
  = [(map (fun w => Q2R w * 1e9) lamda,
      planck_array lamda T)].
Proof. unfold g. apply g_on_plotted. Qed.


(** ** Enclosures of the exponential *)

Lemma le_div_r (a b d : R) : 0 < d -> a * d <= b -> a <= b / d.
Proof.
  intros Hd H. apply Rmult_le_reg_r with d; [exact Hd|].
  replace (b / d * d) with b by (field; lra). exact H.
Qed.

Lemma div_le_l (a b d : R) : 0 < d -> a <= b * d -> a / d <= b.
Proof.
  intros Hd H. apply Rmult_le_reg_r with d; [exact Hd|].
  replace (a / d * d) with a by (field; lra). exact H.
Qed.

Lemma Q2R_Qmake (n : Z) (d : positive) : Q2R (n # d) = IZR n / IZR (Zpos d).
Proof. reflexivity. Qed.

Lemma IZR_pos_pos (s : positive) : 0 < IZR (Zpos s).
Proof. apply IZR_lt. reflexivity. Qed.

Lemma pow2_IZR (k : nat) : 2 ^ k = IZR (2 ^ Z.of_nat k).
Proof. rewrite <- pow_IZR. reflexivity. Qed.

Lemma pow2_pos (k : nat) : 0 < 2 ^ k.
Proof. apply pow_lt. lra. Qed.

Lemma pow2_Zpos (k : nat) : (0 < 2 ^ Z.of_nat k)%Z.
Proof. apply Z.pow_pos_nonneg; lia. Qed.

Lemma IZR_div_floor (n d : Z) :
  (0 < d)%Z -> IZR (n / d) <= IZR n / IZR d.
Proof.
  intro Hd.
  assert (Hd' : 0 < IZR d) by (apply IZR_lt; exact Hd).
  apply le_div_r; [exact Hd'|].
  rewrite <- mult_IZR. apply IZR_le.
  rewrite Z.mul_comm. apply Z.mul_div_le. exact Hd.
Qed.

Lemma IZR_div_ceil (n d : Z) :
  (0 < d)%Z -> IZR n / IZR d <= IZR ((n + d - 1) / d).
Proof.
  intro Hd.
  assert (Hd' : 0 < IZR d) by (apply IZR_lt; exact Hd).
  apply div_le_l; [exact Hd'|].
  rewrite <- mult_IZR. apply IZR_le.
  pose proof (Z_div_mod_eq_full (n + d - 1) d) as E.
  pose proof (Z.mod_pos_bound (n + d - 1) d Hd) as Hm.
  nia.
Qed.

Lemma sqr_down_spec (s : positive) (m : Z) :
  (0 <= sqr_down s m)%Z /\
  Q2R (sqr_down s m # s) <= Q2R (m # s) * Q2R (m # s).
Proof.
  unfold sqr_down. rewrite !Q2R_Qmake. split.
  - apply Z.div_pos; [nia | reflexivity].
  - assert (Hs : (0 < Zpos s)%Z) by reflexivity.
    pose proof (IZR_div_floor (m * m) _ Hs) as H.
    rewrite mult_IZR in H.
    pose proof (IZR_pos_pos s) as Hp.
    apply div_le_l; [exact Hp|].
    apply Rle_trans with (1 := H). right. field. lra.
Qed.

Lemma sqr_up_spec (s : positive) (m : Z) :
  Q2R (m # s) * Q2R (m # s) <= Q2R (sqr_up s m # s).
Proof.
  unfold sqr_up. rewrite !Q2R_Qmake.
  assert (Hs : (0 < Zpos s)%Z) by reflexivity.
  pose proof (IZR_div_ceil (m * m) _ Hs) as H.
  rewrite mult_IZR in H.
  pose proof (IZR_pos_pos s) as Hp.
  apply le_div_r; [exact Hp|].
  apply Rle_trans with (2 := H). right. field. lra.
Qed.

Lemma exp_double (t : R) : exp t * exp t = exp (2 * t).
Proof. rewrite <- exp_plus. f_equal. ring. Qed.

Lemma repeat_sq_down (s : positive) (k : nat) :
  forall (m : Z) (t : R),
    (0 <= m)%Z -> Q2R (m # s) <= exp t ->
    Q2R (repeat_sq (sqr_down s) k m # s) <= exp (t * 2 ^ k).
Proof.
  induction k as [|k IH]; intros m t Hm Ht.
  - simpl. rewrite Rmult_1_r. exact Ht.
  - simpl repeat_sq.
    destruct (sqr_down_spec s m) as [H0 Hs].
    replace (t * 2 ^ S k) with ((2 * t) * 2 ^ k) by (simpl; ring).
    apply IH; [exact H0|].
    apply Rle_trans with (1 := Hs). rewrite <- exp_double.
    assert (0 <= Q2R (m # s)).
    { rewrite Q2R_Qmake. apply le_div_r; [apply IZR_pos_pos|].
      rewrite Rmult_0_l. apply IZR_le. exact Hm. }
    apply Rmult_le_compat; assumption.
Qed.

Lemma repeat_sq_up (s : positive) (k : nat) :
  forall (m : Z) (t : R),
    exp t <= Q2R (m # s) ->
    exp (t * 2 ^ k) <= Q2R (repeat_sq (sqr_up s) k m # s).
Proof.
  induction k as [|k IH]; intros m t Ht.
  - simpl. rewrite Rmult_1_r. exact Ht.
  - simpl repeat_sq.
    replace (t * 2 ^ S k) with ((2 * t) * 2 ^ k) by (simpl; ring).
    apply IH.
    apply Rle_trans with (2 := sqr_up_spec s m). rewrite <- exp_double.
    pose proof (exp_pos t).
    apply Rmult_le_compat; lra.
Qed.

Lemma exp_lo_spec (s : positive) (k : nat) (x : Q) :
  (0 <= Qnum x)%Z -> Q2R (exp_lo s k x) <= exp (Q2R x).
Proof.
  intros Ha. destruct x as [a b]. cbn [Qnum] in Ha.
  unfold exp_lo. cbn [Qnum Qden]. cbv zeta.
  set (d := (Zpos b * 2 ^ Z.of_nat k)%Z).
  assert (Hd : (0 < d)%Z)
    by (apply Z.mul_pos_pos; [reflexivity | apply pow2_Zpos]).
  assert (HdR : 0 < IZR d) by (apply IZR_lt; exact Hd).
  pose proof (IZR_pos_pos b) as HbR.
  pose proof (pow2_pos k) as Hk. pose proof (IZR_pos_pos s) as Hp.
  rewrite (Q2R_Qmake a b).
  replace (IZR a / IZR (Zpos b)) with (IZR a / IZR d * 2 ^ k).
  2:{ unfold d. rewrite mult_IZR, <- pow2_IZR. field. lra. }
  apply repeat_sq_down.
  - apply Z.div_pos; [|exact Hd].
    apply Z.mul_nonneg_nonneg; lia.
  - apply Rle_trans with (2 := exp_ineq1_le _).
    rewrite Q2R_Qmake.
    pose proof (IZR_div_floor ((d + a) * Zpos s) d Hd) as H.
    rewrite mult_IZR, plus_IZR in H.
    apply div_le_l; [exact Hp|].
    apply Rle_trans with (1 := H). right. field. lra.
Qed.

Lemma exp_hi_spec (s : positive) (k : nat) (x : Q) :
  (Qnum x < Zpos (Qden x) * 2 ^ Z.of_nat k)%Z ->
  exp (Q2R x) <= Q2R (exp_hi s k x).
Proof.
  intros Ha. destruct x as [a b]. cbn [Qnum Qden] in Ha.
  unfold exp_hi. cbn [Qnum Qden]. cbv zeta.
  set (d := (Zpos b * 2 ^ Z.of_nat k)%Z) in *.
  assert (Hd : (0 < d)%Z)
    by (apply Z.mul_pos_pos; [reflexivity | apply pow2_Zpos]).
  assert (Hda : (0 < d - a)%Z) by lia.
  assert (HdR : 0 < IZR d) by (apply IZR_lt; exact Hd).
  assert (HdaR : 0 < IZR d - IZR a)
    by (rewrite <- minus_IZR; apply IZR_lt; exact Hda).
  pose proof (IZR_pos_pos b) as HbR.
  pose proof (pow2_pos k) as Hk. pose proof (IZR_pos_pos s) as Hp.
  rewrite (Q2R_Qmake a b).
  replace (IZR a / IZR (Zpos b)) with (IZR a / IZR d * 2 ^ k).
  2:{ unfold d. rewrite mult_IZR, <- pow2_IZR. field. lra. }
  apply repeat_sq_up.
  apply Rle_trans with (IZR d / (IZR d - IZR a)).
  - set (y := IZR a / IZR d).
    assert (Hy : 0 < 1 - y).
    { unfold y. apply Rmult_lt_reg_r with (IZR d); [exact HdR|].
      replace ((1 - IZR a / IZR d) * IZR d) with (IZR d - IZR a)
        by (field; lra).
      lra. }
    replace (IZR d / (IZR d - IZR a)) with (/ (1 - y))
      by (unfold y; field; lra).
    pose proof (exp_ineq1_le (- y)) as H.
    rewrite exp_Ropp in H.
    pose proof (exp_pos y) as He.
    rewrite <- (Rinv_inv (exp y)).
    apply Rinv_le_contravar; lra.
  - rewrite Q2R_Qmake.
    pose proof (IZR_div_ceil (d * Zpos s) (d - a) Hda) as H.
    rewrite mult_IZR, minus_IZR in H.
    apply le_div_r; [exact Hp|].
    apply Rle_trans with (2 := H). right. field. lra.
Qed.

Lemma exp_enclosure (s : positive) (k : nat) (x : Q) :
  exp_arg_ok k x = true ->
  Q2R (exp_lo s k x) <= exp (Q2R x) <= Q2R (exp_hi s k x).
Proof.
  unfold exp_arg_ok. intro H. apply andb_prop in H. destruct H as [H0 H1].
  apply Z.leb_le in H0. apply Z.ltb_lt in H1.
  split; [apply exp_lo_spec | apply exp_hi_spec]; assumption.
Qed.

(** ** Enclosures of [planck] *)

Lemma Qltb_Rlt (a b : Q) : Qltb a b = true -> Q2R a < Q2R b.
Proof. intro H. apply Qlt_Rlt, Qltb_lt, H. Qed.

Lemma Q2R_inject_Z (T : Z) : Q2R (inject_Z T) = IZR T.
Proof. unfold inject_Z. rewrite Q2R_Qmake. lra. Qed.

Lemma Q2R_0 : Q2R 0 = 0.
Proof. rewrite Q2R_Qmake. lra. Qed.

Lemma Q2R_1 : Q2R 1 = 1.
Proof. rewrite Q2R_Qmake. lra. Qed.

Lemma Q2R_pos (q : Q) : (0 < q)%Q -> 0 < Q2R q.
Proof. intro H. apply Qlt_Rlt in H. rewrite Q2R_0 in H. exact H. Qed.

Lemma Q2R_nonzero (q : Q) : Q2R q <> 0 -> ~ (q == 0)%Q.
Proof. intros H E. apply Qeq_eqR in E. rewrite Q2R_0 in E. contradiction. Qed.

Lemma Q2R_h : Q2R 6.62607015e-34 = h.
Proof.
  unfold h, sc.h. rewrite Q2R_div by discriminate.
  rewrite !Q2R_Qmake. lra.
Qed.

Lemma Q2R_c : Q2R 299792458 = c.
Proof. unfold c, sc.c. rewrite Q2R_Qmake. lra. Qed.

Lemma Q2R_B : Q2R 1.380649e-23 = B.
Proof.
  unfold B, sc.Boltzmann. rewrite Q2R_div by discriminate.
  rewrite !Q2R_Qmake. lra.
Qed.

Lemma B_pos : 0 < B.
Proof. unfold B, sc.Boltzmann. lra. Qed.

Lemma exponent_Q_spec (w : Q) (T : Z) :
  (0 < w)%Q -> (0 < T)%Z ->
  Q2R (exponent_Q w T) = h * c / (Q2R w * B * IZR T).
Proof.
  intros Hw HT. apply Q2R_pos in Hw. apply IZR_lt in HT.
  pose proof B_pos as HB.
  assert (Hd : Q2R (w * 1.380649e-23 * inject_Z T) = Q2R w * B * IZR T).
  { rewrite !Q2R_mult, Q2R_B, Q2R_inject_Z. reflexivity. }
  unfold exponent_Q. rewrite Q2R_div.
  - rewrite Hd, Q2R_mult, Q2R_h, Q2R_c. reflexivity.
  - apply Q2R_nonzero. rewrite Hd.
    apply Rgt_not_eq.
    apply Rmult_lt_0_compat; [apply Rmult_lt_0_compat|]; assumption.
Qed.

Lemma Q2R_pow5 (w : Q) : Q2R (pow5 w) = Q2R w ^ 5.
Proof. unfold pow5. rewrite !Q2R_mult. ring. Qed.

Lemma Q2R_numerator : Q2R numerator_Q = 2 * h * c ^ 2.
Proof.
  unfold numerator_Q. rewrite !Q2R_mult, Q2R_h, Q2R_c.
  rewrite Q2R_Qmake. lra.
Qed.

Lemma denominator_enclosure (w : Q) (T : Z) :
  (0 < w)%Q -> (0 < T)%Z ->
  exp_arg_ok halvings (exponent_Q w T) = true ->
  Q2R (denominator_lo w T)
  <= Q2R w ^ 5 * (exp (h * c / (Q2R w * B * IZR T)) - 1)
  <= Q2R (denominator_hi w T).
Proof.
  intros Hw HT Hok.
  pose proof (exp_enclosure scale halvings _ Hok) as [Hl Hu].
  rewrite (exponent_Q_spec w T Hw HT) in Hl, Hu.
  unfold denominator_lo, denominator_hi.
  rewrite !Q2R_mult, !Q2R_minus, !Q2R_pow5, Q2R_1.
  assert (H5 : 0 <= Q2R w ^ 5).
  { apply pow_le. left. apply Q2R_pos. exact Hw. }
  split; apply Rmult_le_compat_l; lra.
Qed.

Lemma planck_enclosure (w : Q) (T : Z) :
  (0 < w)%Q -> (0 < T)%Z ->
  enclosed w T = true ->
  Q2R (planck_lo w T) <= planck (Q2R w) (IZR T) <= Q2R (planck_hi w T).
Proof.
  intros Hw HT Hen. unfold enclosed in Hen.
  apply andb_prop in Hen. destruct Hen as [Hok Hpos].
  pose proof (denominator_enclosure w T Hw HT Hok) as [Hl Hu].
  apply Qltb_Rlt in Hpos. rewrite Q2R_0 in Hpos.
  pose proof numerator_pos as HN.
  unfold planck_lo, planck_hi, planck. cbv zeta.
  set (D := Q2R w ^ 5 * (exp (h * c / (Q2R w * B * IZR T)) - 1)) in *.
  assert (HD : 0 < D) by lra.
  assert (HDh : 0 < Q2R (denominator_hi w T)) by lra.
  rewrite !Q2R_div by (apply Q2R_nonzero; lra).
  rewrite Q2R_numerator.
  unfold Rdiv. split; apply Rmult_le_compat_l; try lra.
  - apply Rinv_le_contravar; lra.
  - apply Rinv_le_contravar; lra.
Qed.

(** ** The supported domain and the binary64 range *)

Lemma f64_exponent (wav T : R) :
  0 < wav -> 0 < T ->
  f64.div (f64.Fin (h * c)) (f64.mul (f64.mul (f64.Fin wav) (f64.Fin B))
                                     (f64.Fin T))
  = f64.Fin (h * c / (wav * B * T)).
Proof.
  intros Hw HT. cbn [f64.mul f64.div].
  destruct (Req_dec_T (wav * B * T) 0) as [E|_]; [|reflexivity].
  pose proof B_pos as HB.
  assert (0 < wav * B * T)
    by (apply Rmult_lt_0_compat; [apply Rmult_lt_0_compat|]; assumption).
  lra.
Qed.

Lemma f64_planck_finite (wav T : R) :
  0 < wav -> 0 < T ->
  / 2 ^ 53 <= h * c / (wav * B * T) <= f64.exp_max ->
  f64.planck wav T = f64.Fin (planck wav T).
Proof.
  intros Hw HT [Hlo Hhi].
  pose proof (denominator_pos wav T Hw HT) as Hd.
  unfold f64.planck. cbv zeta. rewrite (f64_exponent wav T Hw HT).
  unfold f64.exp.
  destruct (Rlt_dec f64.exp_max (h * c / (wav * B * T))) as [H|_]; [lra|].
  assert (Hpos : 0 < / 2 ^ 53) by (apply Rinv_0_lt_compat, pow_lt; lra).
  assert (Hneg : 0 < / 2 ^ 54) by (apply Rinv_0_lt_compat, pow_lt; lra).
  destruct (Rle_dec (- / 2 ^ 54) (h * c / (wav * B * T))) as [_|H]; [|lra].
  destruct (Rlt_dec (h * c / (wav * B * T)) (/ 2 ^ 53)) as [H|_]; [lra|].
  cbn [f64.sub f64.mul f64.div].
  destruct (Req_dec_T (wav ^ 5 * (exp (h * c / (wav * B * T)) - 1)) 0)
    as [E|_]; [lra | reflexivity].
Qed.

Lemma f64_planck_overflow (wav T : R) :
  0 < wav -> 0 < T ->
  f64.exp_max < h * c / (wav * B * T) ->
  f64.planck wav T = f64.Fin 0.
Proof.
  intros Hw HT Hx.
  unfold f64.planck. cbv zeta. rewrite (f64_exponent wav T Hw HT).
  unfold f64.exp.
  destruct (Rlt_dec f64.exp_max (h * c / (wav * B * T))) as [_|H];
    [|contradiction].
  cbn [f64.sub f64.mul]. unfold f64.signed.
  destruct (Rlt_dec 0 (wav ^ 5)) as [_|H]; [reflexivity|].
  exfalso. apply H. apply pow_lt. exact Hw.
Qed.

(** The exponent over the supported domain. *)
Lemma exponent_supported (wav T : R) :
  1e-8 <= wav <= 2e-6 -> 2100 <= T <= 20000 ->
  0.35 <= h * c / (wav * B * T) <= 686.
Proof.
  intros [Hw1 Hw2] [HT1 HT2].
  pose proof B_pos as HB.
  assert (Hlo : 1e-8 * 2100 <= wav * T) by (apply Rmult_le_compat; lra).
  assert (Hhi : wav * T <= 2e-6 * 20000) by (apply Rmult_le_compat; lra).
  assert (Hd : 0 < wav * B * T).
  { apply Rmult_lt_0_compat; [apply Rmult_lt_0_compat|]; lra. }
  replace (wav * B * T) with (B * (wav * T)) in * by ring.
  split.
  - apply le_div_r; [exact Hd|].
    apply Rle_trans with (0.35 * (B * (2e-6 * 20000))).
    + apply Rmult_le_compat_l; [lra|].
      apply Rmult_le_compat_l; lra.
    + unfold h, c, B, sc.h, sc.c, sc.Boltzmann. lra.
  - apply div_le_l; [exact Hd|].
    apply Rle_trans with (686 * (B * (1e-8 * 2100))).
    + unfold h, c, B, sc.h, sc.c, sc.Boltzmann. lra.
    + apply Rmult_le_compat_l; [lra|].
      apply Rmult_le_compat_l; lra.
Qed.

Lemma f64_planck_supported (wav T : R) :
  1e-8 <= wav <= 2e-6 -> 2100 <= T <= 20000 ->
  f64.planck wav T = f64.Fin (planck wav T).
Proof.
  intros Hw HT.
  pose proof (exponent_supported wav T Hw HT) as [Hlo Hhi].
  apply f64_planck_finite; [lra | lra |].
  assert (/ 2 ^ 53 <= 0.35).
  { apply Rmult_le_reg_r with (2 ^ 53); [apply pow_lt; lra|].
    rewrite Rinv_l by (apply Rgt_not_eq, pow_lt; lra). lra. }
  unfold f64.exp_max. lra.
Qed.

Lemma planck_positive (wav T : R) : 0 < wav -> 0 < T -> 0 < planck wav T.
Proof.
  intros Hw HT. unfold planck. cbv zeta.
  apply Rdiv_lt_0_compat; [exact numerator_pos|].
  apply denominator_pos; assumption.
Qed.

Lemma Fin_neq (a b : R) : a <> b -> f64.Fin a <> f64.Fin b.
Proof. intros H E. injection E as E. exact (H E). Qed.

(** C1 (amended): for every wavelength from 1e-8 to 2e-6 and every
    temperature from 2100 to 20000, the value [planck] returns, infinities
    included, is the finite number
    (2 h c^2) / (wav^5 (e^(h c / (wav k_B T)) - 1)) with
    h = 6.62607015e-34, c = 299792458 and k_B = 1.380649e-23: there the
    exponent lies between 0.35 and 686, below the point where [np.exp]
    overflows, the divisor is strictly positive, and k_B is not the
    1.480649e-23 of the notebook's text. *)
Theorem planck_formula (wav T : R) :
  1e-8 <= wav <= 2e-6 -> 2100 <= T <= 20000 ->
  f64.planck wav T =
    f64.Fin
      ((2 * 6.62607015e-34 * 299792458 ^ 2) /
       (wav ^ 5 *
        (exp (6.62607015e-34 * 299792458 / (wav * 1.380649e-23 * T)) - 1)))
  /\ 0.35 <= 6.62607015e-34 * 299792458 / (wav * 1.380649e-23 * T) <= 686
  /\ 686 < f64.exp_max
  /\ 0 < wav ^ 5 *
         (exp (6.62607015e-34 * 299792458 / (wav * 1.380649e-23 * T)) - 1)
  /\ B = 1.380649e-23
  /\ B <> documented_k_B.
Proof.
  intros Hw HT.
  split; [exact (f64_planck_supported wav T Hw HT)|].
  split; [exact (exponent_supported wav T Hw HT)|].
  split; [unfold f64.exp_max; lra|].
  split; [apply (denominator_pos wav T); lra|].
  split; [reflexivity|].
  unfold B, sc.Boltzmann, documented_k_B. lra.
Qed.

Lemma planck_formula_witness :
  1e-8 <= 5e-7 <= 2e-6 /\ 2100 <= 3000 <= 20000 /\
  f64.planck 5e-7 3000 =
    f64.Fin
      ((2 * 6.62607015e-34 * 299792458 ^ 2) /
       (5e-7 ^ 5 *
        (exp (6.62607015e-34 * 299792458 / (5e-7 * 1.380649e-23 * 3000))
         - 1))).
Proof.
  assert (H1 : 1e-8 <= 5e-7 <= 2e-6) by lra.
  assert (H2 : 2100 <= 3000 <= 20000) by lra.
  split; [exact H1|]. split; [exact H2|].
  exact (proj1 (planck_formula 5e-7 3000 H1 H2)).
Defined.

(** C1 as stated fails outside the supported domain: at the wavelength
    1e-8 and the temperature 2000 the exponent exceeds [f64.exp_max],
    [np.exp] returns [inf] and [planck] returns 0.0, which is not the
    value of the formula. *)
Lemma planck_formula_overflow :
  0 < 1e-8 /\ 0 < 2000
  /\ f64.planck 1e-8 2000 = f64.Fin 0
  /\ f64.planck 1e-8 2000 <>
     f64.Fin
       ((2 * 6.62607015e-34 * 299792458 ^ 2) /
        (1e-8 ^ 5 *
         (exp (6.62607015e-34 * 299792458 / (1e-8 * 1.380649e-23 * 2000))
          - 1))).
Proof.
  assert (Hw : 0 < 1e-8) by lra.
  assert (HT : 0 < 2000) by lra.
  assert (Hov : f64.planck 1e-8 2000 = f64.Fin 0).
  { apply f64_planck_overflow; [exact Hw | exact HT |].
    unfold f64.exp_max. apply Rlt_le_trans with 719.
    - lra.
    - apply le_div_r.
      + pose proof B_pos.
        apply Rmult_lt_0_compat; [apply Rmult_lt_0_compat|]; lra.
      + unfold h, c, B, sc.h, sc.c, sc.Boltzmann. lra. }
  split; [exact Hw|]. split; [exact HT|]. split; [exact Hov|].
  rewrite Hov. apply Fin_neq. apply Rlt_not_eq.
  exact (planck_positive 1e-8 2000 Hw HT).
Qed.

(** ** The range of the values *)

Lemma exp_686 : exp 686 <= 1e298.
Proof.
  assert (Hok : exp_arg_ok halvings 686 = true) by (vm_compute; reflexivity).
  pose proof (exp_enclosure scale halvings 686 Hok) as [_ Hu].
  assert (Hq : Qle_bool (exp_hi scale halvings 686) 1e298 = true)
    by (vm_compute; reflexivity).
  apply Qle_bool_imp_le, Qle_Rle in Hq.
  assert (E1 : Q2R 686 = 686) by (rewrite Q2R_Qmake; lra).
  assert (E2 : Q2R 1e298 = 1e298).
  { rewrite Q2R_mult. rewrite !Q2R_Qmake. lra. }
  rewrite E1 in Hu. rewrite E2 in Hq. lra.
Qed.

Lemma planck_range (wav T : R) :
  1e-8 <= wav <= 2e-6 -> 2100 <= T <= 20000 ->
  1e-286 <= planck wav T <= 1e25.
Proof.
  intros Hw HT.
  pose proof (exponent_supported wav T Hw HT) as [Hlo Hhi].
  assert (Hw0 : 0 < wav) by lra. assert (HT0 : 0 < T) by lra.
  pose proof (denominator_pos wav T Hw0 HT0) as Hd.
  pose proof numerator_pos as HN. pose proof B_pos as HB.
  unfold planck. cbv zeta.
  set (x := h * c / (wav * B * T)) in *.
  set (D := wav ^ 5 * (exp x - 1)) in *.
  assert (H5lo : 1e-8 ^ 5 <= wav ^ 5) by (apply pow_incr; lra).
  assert (H5hi : wav ^ 5 <= 2e-6 ^ 5) by (apply pow_incr; lra).
  assert (H5 : 0 < wav ^ 5) by (apply pow_lt; exact Hw0).
  assert (He : exp x <= 1e298).
  { apply Rle_trans with (exp 686); [|exact exp_686].
    destruct Hhi as [Hhi|Hhi]; [left; apply exp_increasing; exact Hhi|].
    rewrite Hhi. right. reflexivity. }
  pose proof (exp_ineq1_le x) as Hx.
  assert (HDhi : D <= 2e-6 ^ 5 * 1e298).
  { unfold D. apply Rmult_le_compat; lra. }
  assert (HDlo : 1e-8 ^ 5 * 0.35 <= D).
  { unfold D. apply Rmult_le_compat; lra. }
  split.
  - apply le_div_r; [exact Hd|].
    apply Rle_trans with (1e-286 * (2e-6 ^ 5 * 1e298)).
    + apply Rmult_le_compat_l; lra.
    + unfold h, c, sc.h, sc.c. lra.
  - apply div_le_l; [exact Hd|].
    apply Rle_trans with (1e25 * (1e-8 ^ 5 * 0.35)).
    + unfold h, c, sc.h, sc.c. lra.
    + apply Rmult_le_compat_l; lra.
Qed.

(** C4: for every wavelength from 1e-8 to 2e-6 and every temperature from
    2100 to 20000 the divisor wav^5 (e^(h c / (wav k_B T)) - 1) and
    [planck wav T] are strictly positive; the value is the one the
    program returns with infinities taken into account, and it lies
    between 1e-286 and 1e25, inside the range of normal doubles. *)
Theorem planck_pos (wav T : R) :
  1e-8 <= wav <= 2e-6 -> 2100 <= T <= 20000 ->
  0 < wav ^ 5 * (exp (h * c / (wav * B * T)) - 1)
  /\ 0 < planck wav T
  /\ f64.planck wav T = f64.Fin (planck wav T)
  /\ 1e-286 <= planck wav T <= 1e25.
Proof.
  intros Hw HT.
  split; [apply denominator_pos; lra|].
  split; [apply planck_positive; lra|].
  split; [exact (f64_planck_supported wav T Hw HT)|].
  exact (planck_range wav T Hw HT).
Qed.

Lemma planck_pos_witness :
  1e-8 <= 1e-8 <= 2e-6 /\ 2100 <= 2100 <= 20000 /\ 0 < planck 1e-8 2100.
Proof.
  assert (H1 : 1e-8 <= 1e-8 <= 2e-6) by lra.
  assert (H2 : 2100 <= 2100 <= 20000) by lra.
  split; [exact H1|]. split; [exact H2|].
  exact (proj1 (proj2 (planck_pos 1e-8 2100 H1 H2))).
Defined.

(** ** The scenario at 3000 K *)

Lemma planck_3000_bounds :
  2.602e11 < planck 5e-7 3000 < 2.603e11.
Proof.
  assert (Hw : (0 < 5e-7)%Q) by reflexivity.
  assert (HT : (0 < 3000)%Z) by reflexivity.
  assert (Hen : enclosed 5e-7 3000 = true) by (vm_compute; reflexivity).
  pose proof (planck_enclosure 5e-7 3000 Hw HT Hen) as [Hl Hu].
  assert (Ew : Q2R 5e-7 = 5e-7).
  { rewrite Q2R_div by discriminate. rewrite !Q2R_Qmake. lra. }
  rewrite Ew in Hl, Hu.
  assert (H1 : Qltb 2.602e11 (planck_lo 5e-7 3000) = true)
    by (vm_compute; reflexivity).
  assert (H2 : Qltb (planck_hi 5e-7 3000) 2.603e11 = true)
    by (vm_compute; reflexivity).
  apply Qltb_Rlt in H1, H2.
  assert (E1 : Q2R 2.602e11 = 2.602e11).
  { rewrite Q2R_mult. rewrite !Q2R_Qmake. lra. }
  assert (E2 : Q2R 2.603e11 = 2.603e11).
  { rewrite Q2R_mult. rewrite !Q2R_Qmake. lra. }
  rewrite E1 in H1. rewrite E2 in H2. lra.
Qed.

(** C8 (amended): at T = 3000, [maxlamda] returns 2.898e-3 / 3000, which is
    9.66e-7 m (966 nm), and [planck 5e-7 3000] lies between 2.602e11 and
    2.603e11 W sr^-1 m^-3, that is, it is of the order of 10^11. *)
Theorem scenario_3000 :
  maxlamda 3000 = Ok ((2.898 * 1e-3) / 3000)%Q
  /\ ((2.898 * 1e-3) / 3000 == 9.66e-7)%Q
  /\ 2.602e11 < planck 5e-7 3000 < 2.603e11.
Proof.
  split; [reflexivity|]. split; [reflexivity|].
  exact planck_3000_bounds.
Qed.

(** C8 as stated fails at its own input: [planck 5e-7 3000] is not within
    a factor of ten of 10^13. *)
Lemma scenario_3000_not_1e13 :
  ~ (1e12 <= planck 5e-7 3000 <= 1e14).
Proof.
  intros [Hlo _]. pose proof planck_3000_bounds as [_ Hhi]. lra.
Qed.

(** ** The shape of the curve *)

Lemma exp_minus_1_pos (x : R) : 0 < x -> 0 < exp x - 1.
Proof. intro Hx. pose proof (exp_ineq1_le x). lra. Qed.

Lemma G_deriv (x : R) : 0 < x -> derivable_pt_lim G x (G' x).
Proof.
  intro Hx.
  pose proof (exp_minus_1_pos x Hx) as He.
  assert (H1 := derivable_pt_lim_pow x 5).
  assert (H2 := derivable_pt_lim_minus _ _ x _ _
                  (derivable_pt_lim_exp x) (derivable_pt_lim_const 1 x)).
  assert (Hne : (exp - fct_cte 1)%F x <> 0).
  { unfold minus_fct, fct_cte. lra. }
  pose proof (derivable_pt_lim_div _ _ x _ _ H1 H2 Hne) as H.
  replace (G' x) with
    ((INR 5 * x ^ Init.Nat.pred 5 * (exp - fct_cte 1)%F x
      - (exp x - 0) * x ^ 5) / Rsqr ((exp - fct_cte 1)%F x)).
  - exact H.
  - unfold G', minus_fct, fct_cte, Rsqr. simpl. field. lra.
Qed.

Lemma exp_tangent (z a : R) : exp z * (1 + (a - z)) <= exp a.
Proof.
  replace a with (z + (a - z)) at 2 by ring.
  rewrite exp_plus.
  apply Rmult_le_compat_l; [left; apply exp_pos | apply exp_ineq1_le].
Qed.

Lemma exp_chord (a t : R) :
  0 <= t <= 1 -> exp (t * a) <= (1 - t) + t * exp a.
Proof.
  intros [H0 H1].
  pose proof (exp_tangent (t * a) 0) as T0. rewrite exp_0 in T0.
  pose proof (exp_tangent (t * a) a) as T1.
  pose proof (exp_pos (t * a)) as Hz.
  set (u := exp (t * a) * (1 + (0 - t * a))) in *.
  set (v := exp (t * a) * (1 + (a - t * a))) in *.
  assert (E : exp (t * a) = (1 - t) * u + t * v) by (unfold u, v; ring).
  assert (A0 : (1 - t) * u <= (1 - t) * 1)
    by (apply Rmult_le_compat_l; lra).
  assert (A1 : t * v <= t * exp a)
    by (apply Rmult_le_compat_l; lra).
  lra.
Qed.

Lemma psi_factor (x : R) : psi x = exp x * (5 - x - 5 * exp (- x)).
Proof.
  unfold psi. rewrite exp_Ropp. pose proof (exp_pos x). field. lra.
Qed.

Section Bracket.

Variables lo hi : R.
Hypothesis lo_pos : 0 < lo.
Hypothesis lo_sign : 5 * exp (- lo) < 5 - lo.
Hypothesis hi_gt_4 : 4 < hi.
Hypothesis hi_sign : 5 - hi < 5 * exp (- hi).

Lemma psi_pos (x : R) : 0 < x <= lo -> 0 < psi x.
Proof.
  intros [H0 H1]. rewrite psi_factor.
  apply Rmult_lt_0_compat; [apply exp_pos|].
  assert (Ht : 0 <= x / lo <= 1).
  { split.
    - apply Rmult_le_reg_r with lo; [exact lo_pos|].
      replace (x / lo * lo) with x by (field; lra). lra.
    - apply Rmult_le_reg_r with lo; [exact lo_pos|].
      replace (x / lo * lo) with x by (field; lra). lra. }
  pose proof (exp_chord (- lo) (x / lo) Ht) as Hc.
  replace (x / lo * - lo) with (- x) in Hc by (field; lra).
  assert (Hq : 0 < x / lo).
  { apply Rmult_lt_reg_r with lo; [exact lo_pos|].
    replace (x / lo * lo) with x by (field; lra). lra. }
  assert (Hs : x / lo * lo < x / lo * (5 - 5 * exp (- lo))).
  { apply Rmult_lt_compat_l; [exact Hq | lra]. }
  replace (x / lo * lo) with x in Hs by (field; lra).
  lra.
Qed.

Lemma psi_neg (x : R) : hi <= x -> psi x < 0.
Proof.
  intro Hx. rewrite psi_factor.
  pose proof (exp_pos x) as He.
  assert (Hn : 5 - x - 5 * exp (- x) < 0).
  { pose proof (exp_pos (- x)) as Hpx.
    destruct (Rle_lt_dec (x - hi) 1) as [Hd|Hd].
    - pose proof (exp_tangent (- hi) (- x)) as Ht.
      pose proof (exp_ineq1_le hi) as H1.
      pose proof (exp_pos hi) as Hph.
      assert (Hs : exp (- hi) < / 5).
      { rewrite exp_Ropp. apply Rinv_lt_contravar; lra. }
      pose proof (exp_pos (- hi)) as Hmh.
      assert (Hm : exp (- hi) * (x - hi) <= / 5 * (x - hi)).
      { apply Rmult_le_compat_r; lra. }
      replace (1 + (- x - - hi)) with (1 - (x - hi)) in Ht by ring.
      lra.
    - lra. }
  assert (0 < exp x * - (5 - x - 5 * exp (- x))).
  { apply Rmult_lt_0_compat; lra. }
  lra.
Qed.

Lemma G'_pos (x : R) : 0 < x <= lo -> 0 < G' x.
Proof.
  intros Hx. unfold G'. fold (psi x).
  pose proof (psi_pos x Hx) as Hp.
  pose proof (exp_minus_1_pos x (proj1 Hx)) as He.
  unfold Rdiv. apply Rmult_lt_0_compat.
  - apply Rmult_lt_0_compat; [apply pow_lt; lra | exact Hp].
  - apply Rinv_0_lt_compat. apply pow_lt. exact He.
Qed.

Lemma G'_neg (x : R) : hi <= x -> G' x < 0.
Proof.
  intros Hx. unfold G'. fold (psi x).
  pose proof (psi_neg x Hx) as Hp.
  assert (H0 : 0 < x) by lra.
  pose proof (exp_minus_1_pos x H0) as He.
  assert (0 < x ^ 4 * (- psi x) / (exp x - 1) ^ 2).
  { unfold Rdiv. apply Rmult_lt_0_compat.
    - apply Rmult_lt_0_compat; [apply pow_lt; lra | lra].
    - apply Rinv_0_lt_compat. apply pow_lt. exact He. }
  replace (x ^ 4 * psi x / (exp x - 1) ^ 2)
    with (- (x ^ 4 * - psi x / (exp x - 1) ^ 2)) by (field; lra).
  lra.
Qed.

Lemma G_increasing (x y : R) : 0 < x -> x < y -> y <= lo -> G x < G y.
Proof.
  intros H0 Hxy Hy.
  destruct (MVT_cor2 G G' x y Hxy) as [c [E Hc]].
  { intros c Hc. apply G_deriv. lra. }
  assert (0 < G' c) by (apply G'_pos; lra).
  assert (0 < G' c * (y - x)) by (apply Rmult_lt_0_compat; lra).
  lra.
Qed.

Lemma G_decreasing (x y : R) : hi <= x -> x < y -> G y < G x.
Proof.
  intros H0 Hxy.
  destruct (MVT_cor2 G G' x y Hxy) as [c [E Hc]].
  { intros c Hc. apply G_deriv. lra. }
  assert (G' c < 0) by (apply G'_neg; lra).
  assert (0 < (- G' c) * (y - x)) by (apply Rmult_lt_0_compat; lra).
  lra.
Qed.

End Bracket.

Lemma bracket_ok_true : bracket_ok = true.
Proof. vm_compute. reflexivity. Qed.

Lemma Q2R_bracket_lo : Q2R bracket_lo = 4.9649.
Proof. unfold bracket_lo. rewrite Q2R_Qmake. lra. Qed.

Lemma Q2R_bracket_hi : Q2R bracket_hi = 4.9653.
Proof. unfold bracket_hi. rewrite Q2R_Qmake. lra. Qed.

Lemma Q2R_5 : Q2R 5 = 5.
Proof. rewrite Q2R_Qmake. lra. Qed.

Lemma bracket_lo_sign : 5 * exp (- Q2R bracket_lo) < 5 - Q2R bracket_lo.
Proof.
  pose proof bracket_ok_true as H. unfold bracket_ok in H.
  repeat (apply andb_prop in H; destruct H as [H ?]).
  pose proof (exp_enclosure scale halvings bracket_lo H) as [Hl _].
  match goal with
  | K : Qltb 5 _ = true |- _ => apply Qltb_Rlt in K;
      rewrite Q2R_mult, Q2R_minus, Q2R_5 in K; rename K into Hk
  end.
  rewrite exp_Ropp.
  pose proof (exp_pos (Q2R bracket_lo)) as He.
  rewrite Q2R_bracket_lo in *.
  assert (Hm : (5 - 4.9649) * Q2R (exp_lo scale halvings bracket_lo)
               <= (5 - 4.9649) * exp 4.9649).
  { apply Rmult_le_compat_l; lra. }
  apply Rmult_lt_reg_r with (exp 4.9649); [exact He|].
  replace (5 * / exp 4.9649 * exp 4.9649) with 5 by (field; lra).
  lra.
Qed.

Lemma bracket_hi_sign : 5 - Q2R bracket_hi < 5 * exp (- Q2R bracket_hi).
Proof.
  pose proof bracket_ok_true as H. unfold bracket_ok in H.
  repeat (apply andb_prop in H; destruct H as [H ?]).
  match goal with
  | K : exp_arg_ok halvings bracket_hi = true |- _ =>
      pose proof (exp_enclosure scale halvings bracket_hi K) as [_ Hu]
  end.
  match goal with
  | K : Qltb _ 5 = true |- _ => apply Qltb_Rlt in K;
      rewrite Q2R_mult, Q2R_minus, Q2R_5 in K; rename K into Hk
  end.
  rewrite exp_Ropp.
  pose proof (exp_pos (Q2R bracket_hi)) as He.
  rewrite Q2R_bracket_hi in *.
  assert (Hm : (5 - 4.9653) * exp 4.9653
               <= (5 - 4.9653) * Q2R (exp_hi scale halvings bracket_hi)).
  { apply Rmult_le_compat_l; lra. }
  apply Rmult_lt_reg_r with (exp 4.9653); [exact He|].
  replace (5 * / exp 4.9653 * exp 4.9653) with 5 by (field; lra).
  lra.
Qed.

Lemma G_rises (x y : R) :
  0 < x -> x < y -> y <= Q2R bracket_lo -> G x < G y.
Proof.
  apply G_increasing.
  - rewrite Q2R_bracket_lo. lra.
  - exact bracket_lo_sign.
Qed.

Lemma G_falls (x y : R) : Q2R bracket_hi <= x -> x < y -> G y < G x.
Proof.
  apply G_decreasing.
  - rewrite Q2R_bracket_hi. lra.
  - exact bracket_hi_sign.
Qed.

Lemma has_peak_all : forallb has_peak (positions T_slider) = true.
Proof. vm_compute. reflexivity. Qed.

(** *** Planck's law through [G] *)

Lemma K_pos (T : R) : 0 < T -> 0 < K T.
Proof.
  intro HT. unfold K.
  apply Rmult_lt_0_compat; [exact numerator_pos|].
  apply pow_lt. apply Rdiv_lt_0_compat; [|exact hc_pos].
  apply Rmult_lt_0_compat; [exact B_pos | exact HT].
Qed.

Lemma planck_as_G (wav T : R) :
  0 < wav -> 0 < T ->
  planck wav T = K T * G (h * c / (wav * B * T)).
Proof.
  intros Hw HT.
  pose proof (exponent_arg_pos wav T Hw HT) as Hx.
  pose proof (exp_minus_1_pos _ Hx) as He.
  pose proof B_pos as HB.
  assert (Hh : 0 < h) by (unfold h, sc.h; lra).
  assert (Hc : 0 < c) by (unfold c, sc.c; lra).
  unfold planck, K, G. cbv zeta.
  set (e := exp (h * c / (wav * B * T))) in *.
  field. repeat split; lra.
Qed.

Lemma exponent_antitone (w1 w2 T : R) :
  0 < w1 -> w1 < w2 -> 0 < T ->
  h * c / (w2 * B * T) < h * c / (w1 * B * T).
Proof.
  intros H1 H12 HT.
  pose proof hc_pos as Hhc. pose proof B_pos as HB.
  assert (Hd1 : 0 < w1 * B * T).
  { apply Rmult_lt_0_compat; [apply Rmult_lt_0_compat|]; lra. }
  assert (Hd : w1 * B * T < w2 * B * T).
  { apply Rmult_lt_compat_r; [exact HT|].
    apply Rmult_lt_compat_r; [exact HB | exact H12]. }
  unfold Rdiv. apply Rmult_lt_compat_l; [exact Hhc|].
  apply Rinv_lt_contravar; [|exact Hd].
  apply Rmult_lt_0_compat; lra.
Qed.

Lemma planck_rises_left (w1 w2 T : R) :
  0 < w1 -> w1 < w2 -> 0 < T ->
  Q2R bracket_hi <= h * c / (w2 * B * T) ->
  planck w1 T < planck w2 T.
Proof.
  intros H1 H12 HT Hx.
  rewrite !planck_as_G by lra.
  apply Rmult_lt_compat_l; [exact (K_pos T HT)|].
  apply G_falls; [exact Hx|].
  apply exponent_antitone; assumption.
Qed.

Lemma planck_falls_right (w1 w2 T : R) :
  0 < w1 -> w1 < w2 -> 0 < T ->
  h * c / (w1 * B * T) <= Q2R bracket_lo ->
  planck w2 T < planck w1 T.
Proof.
  intros H1 H12 HT Hx.
  rewrite !planck_as_G by lra.
  apply Rmult_lt_compat_l; [exact (K_pos T HT)|].
  apply G_rises; [|apply exponent_antitone; assumption | exact Hx].
  apply exponent_arg_pos; lra.
Qed.

Lemma below_sound (w1 w2 : Q) (T : Z) :
  (0 < w1)%Q -> (0 < w2)%Q -> (0 < T)%Z ->
  below w1 w2 T = true ->
  planck (Q2R w1) (IZR T) < planck (Q2R w2) (IZR T).
Proof.
  intros H1 H2 HT Hb. unfold below in Hb.
  apply andb_prop in Hb. destruct Hb as [Hb Hlt].
  apply andb_prop in Hb. destruct Hb as [Hok1 Hok2].
  pose proof (denominator_enclosure w1 T H1 HT Hok1) as [Hl1 _].
  pose proof (denominator_enclosure w2 T H2 HT Hok2) as [_ Hu2].
  apply Qltb_Rlt in Hlt.
  pose proof (denominator_pos (Q2R w2) (IZR T) (Q2R_pos _ H2)
                (IZR_lt _ _ HT)) as Hp2.
  pose proof numerator_pos as HN.
  unfold planck. cbv zeta.
  unfold Rdiv. apply Rmult_lt_compat_l; [exact HN|].
  apply Rinv_lt_contravar; [|lra].
  apply Rmult_lt_0_compat; lra.
Qed.

(** *** The samples *)

Lemma Q2R_1e_8 : Q2R 1e-8 = 1e-8.
Proof. rewrite Q2R_div by discriminate. rewrite !Q2R_Qmake. lra. Qed.

Lemma Q2R_5e_9 : Q2R 5e-9 = 5e-9.
Proof. rewrite Q2R_div by discriminate. rewrite !Q2R_Qmake. lra. Qed.

Lemma Q2R_sample (i : nat) : Q2R (sample i) = 1e-8 + INR i * 5e-9.
Proof.
  unfold sample.
  rewrite Q2R_plus, Q2R_mult, Q2R_inject_Z, Q2R_1e_8, Q2R_5e_9.
  rewrite <- INR_IZR_INZ. reflexivity.
Qed.

Lemma sample_pos (i : nat) : (0 < sample i)%Q.
Proof.
  apply Rlt_Qlt. rewrite Q2R_0, Q2R_sample.
  pose proof (pos_INR i). lra.
Qed.

Lemma sample_lt (i j : nat) : (i < j)%nat -> Q2R (sample i) < Q2R (sample j).
Proof.
  intro H. rewrite !Q2R_sample. apply lt_INR in H. lra.
Qed.

Lemma sample_le (i j : nat) : (i <= j)%nat -> Q2R (sample i) <= Q2R (sample j).
Proof.
  intro H. rewrite !Q2R_sample. apply le_INR in H. lra.
Qed.

Lemma exponent_sample_antitone (T : Z) (i j : nat) :
  (0 < T)%Z -> (i <= j)%nat ->
  Q2R (exponent_Q (sample j) T) <= Q2R (exponent_Q (sample i) T).
Proof.
  intros HT Hij.
  rewrite !exponent_Q_spec by (try apply sample_pos; exact HT).
  destruct (Nat.eq_dec i j) as [->|Hne]; [right; reflexivity|].
  left. apply exponent_antitone.
  - apply Q2R_pos, sample_pos.
  - apply sample_lt. lia.
  - apply IZR_lt. exact HT.
Qed.

Lemma nth_planck_array (T : Z) (i : nat) :
  (i < 398)%nat ->
  nth i (planck_array lamda T) 0 = planck (Q2R (sample i)) (IZR T).
Proof.
  intro Hi. unfold planck_array.
  rewrite (nth_indep _ 0 (planck (Q2R 0%Q) (IZR T)))
    by (rewrite List.length_map, lamda_length; exact Hi).
  rewrite (map_nth (fun w => planck (Q2R w) (IZR T))).
  rewrite (lamda_nth i Hi). reflexivity.
Qed.

(** *** Soundness of the peak search *)

Lemma left_rises (T : Z) (j i : nat) :
  (0 < T)%Z ->
  Qle_bool bracket_hi (exponent_Q (sample j) T) = true ->
  (S i <= j)%nat ->
  planck (Q2R (sample i)) (IZR T) < planck (Q2R (sample (S i))) (IZR T).
Proof.
  intros HT Hb Hi.
  apply planck_rises_left.
  - apply Q2R_pos, sample_pos.
  - apply sample_lt. lia.
  - apply IZR_lt. exact HT.
  - rewrite <- exponent_Q_spec by (try apply sample_pos; exact HT).
    apply Rle_trans with (Q2R (exponent_Q (sample j) T)).
    + apply Qle_Rle, Qle_bool_imp_le. exact Hb.
    + apply exponent_sample_antitone; assumption.
Qed.

Lemma right_falls (T : Z) (j i : nat) :
  (0 < T)%Z ->
  Qle_bool (exponent_Q (sample j) T) bracket_lo = true ->
  (j <= i)%nat ->
  planck (Q2R (sample (S i))) (IZR T) < planck (Q2R (sample i)) (IZR T).
Proof.
  intros HT Hb Hi.
  apply planck_falls_right.
  - apply Q2R_pos, sample_pos.
  - apply sample_lt. lia.
  - apply IZR_lt. exact HT.
  - rewrite <- exponent_Q_spec by (try apply sample_pos; exact HT).
    apply Rle_trans with (Q2R (exponent_Q (sample j) T)).
    + apply exponent_sample_antitone; assumption.
    + apply Qle_Rle, Qle_bool_imp_le. exact Hb.
Qed.

Lemma peak_index_sound (T : Z) (j : nat) :
  (0 < T)%Z ->
  peak_index T = Some j ->
  (j < 398)%nat
  /\ (forall i : nat, (i < j)%nat ->
        planck (Q2R (sample i)) (IZR T)
        < planck (Q2R (sample (S i))) (IZR T))
  /\ (forall i : nat, (j <= i)%nat ->
        planck (Q2R (sample (S i))) (IZR T)
        < planck (Q2R (sample i)) (IZR T))
  /\ near_peak T j = true.
Proof.
  intros HT. unfold peak_index. cbv zeta.
  set (j0 := last_left T).
  destruct ((S j0 <? 398)%nat) eqn:Hlt; [|discriminate].
  destruct (Qle_bool bracket_hi (exponent_Q (sample j0) T)) eqn:Hl;
    [|discriminate].
  destruct (Qle_bool (exponent_Q (sample (S j0)) T) bracket_lo) eqn:Hr;
    [|discriminate].
  cbn [andb]. apply Nat.ltb_lt in Hlt.
  destruct (below (sample j0) (sample (S j0)) T) eqn:Hup.
  - destruct (near_peak T (S j0)) eqn:Hn; [|discriminate].
    intro E. injection E as <-.
    split; [exact Hlt|]. split; [|split; [|exact Hn]].
    + intros i Hi. destruct (Nat.eq_dec i j0) as [->|Hne].
      * apply below_sound; try apply sample_pos; assumption.
      * apply (left_rises T j0 i HT Hl). lia.
    + intros i Hi. apply (right_falls T (S j0) i HT Hr Hi).
  - destruct (below (sample (S j0)) (sample j0) T) eqn:Hdown; [|discriminate].
    destruct (near_peak T j0) eqn:Hn; [|discriminate].
    intro E. injection E as <-.
    split; [lia|]. split; [|split; [|exact Hn]].
    + intros i Hi. apply (left_rises T j0 i HT Hl). lia.
    + intros i Hi. destruct (Nat.eq_dec i j0) as [->|Hne].
      * apply below_sound; try apply sample_pos; assumption.
      * apply (right_falls T (S j0) i HT Hr). lia.
Qed.

Lemma chain_up (f : nat -> R) (j : nat) :
  (forall i : nat, (i < j)%nat -> f i < f (S i)) ->
  forall i : nat, (i < j)%nat -> f i < f j.
Proof.
  intros Hstep. induction j as [|j IH]; intros i Hi; [lia|].
  destruct (Nat.eq_dec i j) as [->|Hne].
  - apply Hstep. lia.
  - apply Rlt_trans with (f j).
    + apply IH; [|lia]. intros k Hk. apply Hstep. lia.
    + apply Hstep. lia.
Qed.

Lemma chain_down (f : nat -> R) (j : nat) :
  (forall i : nat, (j <= i)%nat -> f (S i) < f i) ->
  forall i : nat, (j < i)%nat -> f i < f j.
Proof.
  intros Hstep i. induction i as [|i IH]; intro Hi; [lia|].
  destruct (Nat.eq_dec i j) as [->|Hne].
  - apply Hstep. lia.
  - apply Rlt_trans with (f i).
    + apply Hstep. lia.
    + apply IH. lia.
Qed.

(** C3: for every temperature [T] the slider can pass, the sampled curve
    [planck_array lamda T] rises strictly up to one sample [j] and falls
    strictly after it, so that sample is its only maximum, and its
    wavelength is less than one step (5e-9) away from [maxlamda T]. *)
Theorem planck_unimodal (T : Z) :
  In T (positions T_slider) ->
  exists (j : nat) (m : Q),
    (j < 398)%nat
    /\ maxlamda (inject_Z T) = Ok m
    /\ (forall i : nat, (i < j)%nat ->
          nth i (planck_array lamda T) 0
          < nth (S i) (planck_array lamda T) 0)
    /\ (forall i : nat, (j <= i)%nat -> (S i < 398)%nat ->
          nth (S i) (planck_array lamda T) 0
          < nth i (planck_array lamda T) 0)
    /\ (forall i : nat, (i < 398)%nat -> i <> j ->
          nth i (planck_array lamda T) 0
          < nth j (planck_array lamda T) 0)
    /\ (Qabs (nth j lamda 0 - m) < 5e-9)%Q.
Proof.
  intro HT.
  pose proof has_peak_all as Hall.
  rewrite forallb_forall in Hall. specialize (Hall T HT).
  unfold has_peak in Hall.
  destruct (peak_index T) as [j|] eqn:Ej; [clear Hall | discriminate].
  apply positions_T_slider in HT. destruct HT as [[Hlo _] _].
  assert (Hpos : (0 < T)%Z) by lia.
  destruct (peak_index_sound T j Hpos Ej) as [Hj [Hup [Hdown Hnear]]].
  unfold near_peak in Hnear.
  destruct (maxlamda (inject_Z T)) as [m|e] eqn:Em; [|discriminate].
  exists j, m.
  split; [exact Hj|]. split; [reflexivity|].
  split; [|split; [|split]].
  - intros i Hi. rewrite !nth_planck_array by lia. apply Hup. exact Hi.
  - intros i Hi Hn. rewrite !nth_planck_array by lia. apply Hdown. exact Hi.
  - intros i Hi Hne. rewrite !nth_planck_array by lia.
    destruct (Nat.lt_ge_cases i j) as [Hlt|Hge].
    + apply (chain_up (fun k => planck (Q2R (sample k)) (IZR T)) j Hup i Hlt).
    + apply (chain_down (fun k => planck (Q2R (sample k)) (IZR T)) j Hdown).
      lia.
  - rewrite (lamda_nth j Hj). apply Qltb_lt. exact Hnear.
Qed.

Lemma planck_unimodal_witness :
  In 3000%Z (positions T_slider) /\
  exists (j : nat) (m : Q),
    (j < 398)%nat
    /\ maxlamda (inject_Z 3000) = Ok m
    /\ (forall i : nat, (i < 398)%nat -> i <> j ->
          nth i (planck_array lamda 3000) 0
          < nth j (planck_array lamda 3000) 0)
    /\ (Qabs (nth j lamda 0 - m) < 5e-9)%Q.
Proof.
  assert (H : In 3000%Z (positions T_slider)).
  { apply positions_T_slider. split; [lia | reflexivity]. }
  split; [exact H|].
  destruct (planck_unimodal 3000 H) as [j [m [Hj [Em [_ [_ [Hmax Hd]]]]]]].
  exists j, m. repeat split; assumption.
Defined.

(** * Further properties *)

(** ** The callback, case by case *)

Lemma maxlamda_inject_Z (T : Z) :
  T <> 0%Z ->
  maxlamda (inject_Z T) = Ok ((2.898 * 1e-3) / inject_Z T)%Q.
Proof.
  intro HT. unfold maxlamda.
  destruct (Qeq_bool (inject_Z T) 0) eqn:E; [|reflexivity].
  apply Qeq_bool_eq in E. unfold Qeq, inject_Z in E. cbn [Qnum Qden] in E.
  lia.
Qed.

Lemma g_zero (df : DataFrame) (xmax ymax : R) :
  g df xmax ymax 0
  = ([plot (map (fun w => Q2R w * 1e9) lamda) (planck_array lamda 0) 0],
     Raise ZeroDivisionError).
Proof. reflexivity. Qed.

Lemma g_missing (df : DataFrame) (xmax ymax : R) (T : Z) (e : exn) :
  T <> 0%Z -> colorval df T = Raise e ->
  g df xmax ymax T
  = (plot (map (fun w => Q2R w * 1e9) lamda) (planck_array lamda T) T
     :: axvline (Q2R ((2.898 * 1e-3) / inject_Z T) * 1e9)
                (Q2R ((2.898 * 1e-3) / inject_Z T) * 1e9)
     :: decorations xmax ymax,
     Raise e).
Proof.
  intros HT Hc. unfold g, g_on.
  rewrite (maxlamda_inject_Z T HT), Hc. reflexivity.
Qed.

Lemma g_found (df : DataFrame) (xmax ymax : R) (T : Z) (v : RGB) :
  T <> 0%Z -> colorval df T = Ok v ->
  g df xmax ymax T
  = (plot (map (fun w => Q2R w * 1e9) lamda) (planck_array lamda T) T
     :: axvline (Q2R ((2.898 * 1e-3) / inject_Z T) * 1e9)
                (Q2R ((2.898 * 1e-3) / inject_Z T) * 1e9)
     :: (decorations xmax ymax
         ++ [annotate "Object Color" 1800 (ymax / 2 + 0.22 * ymax);
             add_patch 1750 (ymax / 2) 300 (0.2 * ymax) v;
             legend; show])%list,
     Ok tt).
Proof.
  intros HT Hc. unfold g, g_on.
  rewrite (maxlamda_inject_Z T HT), Hc. reflexivity.
Qed.

(** ** Two runs in a kernel *)

Lemma draw_globals (tr : list Call) :
  forall k : Kernel,
    kernel_lamda (draw tr k) = kernel_lamda k
    /\ kernel_temp_to_rgb (draw tr k) = kernel_temp_to_rgb k.
Proof.
  induction tr as [|c tr IH]; intro k; [split; reflexivity|].
  unfold draw. cbn [fold_left]. fold (draw tr (draw_call k c)).
  destruct (IH (draw_call k c)) as [H1 H2]. rewrite H1, H2.
  destruct c; split; reflexivity.
Qed.

Lemma curves_draw_call (k : Kernel) (c : Call) :
  curves (draw_call k c) = (curves k ++ plotted [c])%list.
Proof.
  unfold curves.
  destruct c; cbn [draw_call gcf displayed];
    try (rewrite app_assoc, plotted_app; reflexivity).
  rewrite concat_app. cbn [List.concat]. rewrite !app_nil_r. reflexivity.
Qed.

Lemma curves_draw (tr : list Call) :
  forall k : Kernel, curves (draw tr k) = (curves k ++ plotted tr)%list.
Proof.
  induction tr as [|c tr IH]; intro k.
  - cbn. rewrite app_nil_r. reflexivity.
  - unfold draw. cbn [fold_left]. fold (draw tr (draw_call k c)).
    rewrite IH, curves_draw_call, <- app_assoc, <- plotted_app.
    reflexivity.
Qed.

Lemma g_result_limits (df : DataFrame) (x1 y1 x2 y2 : R) (T : Z) :
  snd (g df x1 y1 T) = snd (g df x2 y2 T).
Proof.
  destruct (Z.eq_dec T 0) as [->|HT]; [reflexivity|].
  destruct (colorval df T) as [v|e] eqn:E.
  - rewrite !(g_found df _ _ T v HT E). reflexivity.
  - rewrite !(g_missing df _ _ T e HT E). reflexivity.
Qed.

Lemma run_g_globals (limits : list Call -> R * R) (T : Z) (k : Kernel) :
  kernel_lamda (snd (run_g limits T k)) = kernel_lamda k
  /\ kernel_temp_to_rgb (snd (run_g limits T k)) = kernel_temp_to_rgb k.
Proof. unfold run_g. cbv zeta. cbn [snd]. apply draw_globals. Qed.

Lemma run_g_curves (limits : list Call -> R * R) (T : Z) (k : Kernel) :
  curves (snd (run_g limits T k))
  = (curves k
     ++ [(map (fun w => Q2R w * 1e9) (kernel_lamda k),
          planck_array (kernel_lamda k) T)])%list.
Proof.
  unfold run_g. cbv zeta. cbn [snd].
  rewrite curves_draw, g_on_plotted. reflexivity.
Qed.

Lemma run_g_result (limits : list Call -> R * R) (T : Z) (k : Kernel) :
  kernel_lamda k = lamda ->
  fst (run_g limits T k)
  = snd (g (kernel_temp_to_rgb k) 0 0 T).
Proof.
  intro Hk. unfold run_g. cbv zeta. cbn [fst]. rewrite Hk.
  change (g_on lamda) with g. apply g_result_limits.
Qed.

(** C7: in a kernel whose [lamda] is the notebook's grid, whatever it has
    drawn before and whatever limits the axes report, two runs of the
    callback in a row at the same temperature of the supported range leave
    [lamda] and the colour table as they were, each add exactly one curve
    to what is drawn, the same both times (the wavelengths in nanometres
    and [planck] over [lamda] at [T]), and end alike. *)
Theorem g_curve_idempotent :
  forall (limits : list Call -> R * R) (T : Z) (k : Kernel),
    kernel_lamda k = lamda -> (2100 <= T <= 20000)%Z ->
    let k1 := snd (run_g limits T k) in
    let k2 := snd (run_g limits T k1) in
    kernel_lamda k1 = lamda
    /\ kernel_temp_to_rgb k1 = kernel_temp_to_rgb k
    /\ kernel_lamda k2 = lamda
    /\ kernel_temp_to_rgb k2 = kernel_temp_to_rgb k
    /\ curves k1
       = (curves k
          ++ [(map (fun w => Q2R w * 1e9) lamda, planck_array lamda T)])%list
    /\ curves k2
       = (curves k1
          ++ [(map (fun w => Q2R w * 1e9) lamda, planck_array lamda T)])%list
    /\ fst (run_g limits T k1) = fst (run_g limits T k).
Proof.
  intros limits T k Hk HT k1 k2.
  destruct (run_g_globals limits T k) as [L1 D1]. fold k1 in L1, D1.
  destruct (run_g_globals limits T k1) as [L2 D2]. fold k2 in L2, D2.
  rewrite Hk in L1. rewrite L1 in L2. rewrite D1 in D2.
  repeat (split; [assumption|]).
  split; [|split].
  - unfold k1. rewrite run_g_curves, Hk. reflexivity.
  - unfold k2. rewrite run_g_curves, L1. reflexivity.
  - rewrite (run_g_result limits T k1 L1), (run_g_result limits T k Hk), D1.
    reflexivity.
Qed.

Lemma g_curve_idempotent_witness :
  kernel_lamda fresh_kernel = lamda /\ (2100 <= 3000 <= 20000)%Z /\
  curves (snd (run_g (fun _ => (2000, 1)) 3000
                 (snd (run_g (fun _ => (2000, 1)) 3000 fresh_kernel))))
  = [(map (fun w => Q2R w * 1e9) lamda, planck_array lamda 3000);
     (map (fun w => Q2R w * 1e9) lamda, planck_array lamda 3000)].
Proof.
  assert (H1 : kernel_lamda fresh_kernel = lamda) by reflexivity.
  assert (H2 : (2100 <= 3000 <= 20000)%Z) by lia.
  split; [exact H1|]. split; [exact H2|].
  destruct (g_curve_idempotent (fun _ => (2000, 1)) 3000 fresh_kernel H1 H2)
    as [_ [_ [_ [_ [C1 [C2 _]]]]]].
  rewrite C2, C1. reflexivity.
Defined.

(** ** More on Planck's law *)

Lemma exponent_antitone_T (wav T1 T2 : R) :
  0 < wav -> 0 < T1 -> T1 < T2 ->
  h * c / (wav * B * T2) < h * c / (wav * B * T1).
Proof.
  intros Hw H1 H12.
  pose proof hc_pos as Hhc. pose proof B_pos as HB.
  assert (HwB : 0 < wav * B) by (apply Rmult_lt_0_compat; assumption).
  assert (Hd1 : 0 < wav * B * T1) by (apply Rmult_lt_0_compat; assumption).
  assert (Hd : wav * B * T1 < wav * B * T2)
    by (apply Rmult_lt_compat_l; assumption).
  unfold Rdiv. apply Rmult_lt_compat_l; [exact Hhc|].
  apply Rinv_lt_contravar; [|exact Hd].
  apply Rmult_lt_0_compat; lra.
Qed.

Lemma denominator_antitone_T (wav T1 T2 : R) :
  0 < wav -> 0 < T1 -> T1 < T2 ->
  wav ^ 5 * (exp (h * c / (wav * B * T2)) - 1)
  < wav ^ 5 * (exp (h * c / (wav * B * T1)) - 1).
Proof.
  intros Hw H1 H12.
  apply Rmult_lt_compat_l; [apply pow_lt; exact Hw|].
  pose proof (exp_increasing _ _ (exponent_antitone_T wav T1 T2 Hw H1 H12)).
  lra.
Qed.

Lemma quotient_antitone (n d1 d2 : R) :
  0 < n -> 0 < d2 -> d2 < d1 -> n / d1 < n / d2.
Proof.
  intros Hn H2 H12. unfold Rdiv.
  apply Rmult_lt_compat_l; [exact Hn|].
  apply Rinv_lt_contravar; [|exact H12].
  apply Rmult_lt_0_compat; lra.
Qed.




(** X3: on the supported domain (wavelengths from 1e-8 to 2e-6,
    temperatures from 2100 to 20000) [planck wav T] stays strictly below
    the Rayleigh-Jeans value 2 c k_B T / wav^4. *)
Theorem planck_Rayleigh_Jeans (wav T : R) :
  1e-8 <= wav <= 2e-6 -> 2100 <= T <= 20000 ->
  planck wav T < 2 * c * B * T / wav ^ 4.
Proof.
  intros Hw' HT'.
  assert (Hw : 0 < wav) by lra. assert (HT : 0 < T) by lra.
  pose proof (exponent_arg_pos wav T Hw HT) as Hx.
  pose proof numerator_pos as HN. pose proof B_pos as HB.
  assert (Hh : 0 < h) by (unfold h, sc.h; lra).
  assert (Hc : 0 < c) by (unfold c, sc.c; lra).
  assert (H5 : 0 < wav ^ 5) by (apply pow_lt; exact Hw).
  unfold planck. cbv zeta.
  set (x := h * c / (wav * B * T)) in *.
  assert (Hgt : 1 + x < exp x) by (apply exp_ineq1; lra).
  replace (2 * c * B * T / wav ^ 4)
    with (2 * h * c ^ 2 / (wav ^ 5 * x)) by (unfold x; field; lra).
  apply quotient_antitone; [exact HN | |].
  - apply Rmult_lt_0_compat; lra.
  - apply Rmult_lt_compat_l; lra.
Qed.

Lemma planck_Rayleigh_Jeans_witness :
  1e-8 <= 5e-7 <= 2e-6 /\ 2100 <= 3000 <= 20000 /\
  planck 5e-7 3000 < 2 * c * B * 3000 / 5e-7 ^ 4.
Proof.
  assert (H1 : 1e-8 <= 5e-7 <= 2e-6) by lra.
  assert (H2 : 2100 <= 3000 <= 20000) by lra.
  split; [exact H1|]. split; [exact H2|].
  exact (planck_Rayleigh_Jeans 5e-7 3000 H1 H2).
Defined.

(** ** More on Wien's law *)

Lemma Q2R_wien (T : Q) :
  ~ (T == 0)%Q -> Q2R ((2.898 * 1e-3) / T) = 2.898e-3 / Q2R T.
Proof.
  intro HT. rewrite Q2R_div by exact HT. rewrite Q2R_mult.
  rewrite (Q2R_div 1 _) by discriminate.
  rewrite !Q2R_Qmake. lra.
Qed.

Lemma Q2R_neg (q : Q) : (q < 0)%Q -> Q2R q < 0.
Proof. intro H. apply Qlt_Rlt in H. rewrite Q2R_0 in H. exact H. Qed.

(** X4: for an integer temperature of magnitude below 2^1023 (so that it
    converts to a float), [maxlamda] raises exactly when the temperature is
    zero, and then [ZeroDivisionError]; a negative temperature is not
    rejected and gives a negative wavelength. *)
Theorem maxlamda_errors (T : Z) :
  (Z.abs T < 2 ^ 1023)%Z ->
  (maxlamda (inject_Z T) = Raise ZeroDivisionError <-> T = 0%Z)
  /\ (forall e : exn,
        maxlamda (inject_Z T) = Raise e -> e = ZeroDivisionError)
  /\ ((T < 0)%Z ->
      exists m : Q, maxlamda (inject_Z T) = Ok m /\ (m < 0)%Q).
Proof.
  intros _.
  destruct (Z.eq_dec T 0) as [->|HT].
  - split; [|split].
    + split; reflexivity.
    + intros e He. cbn in He. congruence.
    + intro H. lia.
  - rewrite (maxlamda_inject_Z T HT). split; [|split].
    + split; [discriminate | intro; contradiction].
    + intros e He. discriminate.
    + intro Hneg. eexists. split; [reflexivity|].
      assert (N : ~ (inject_Z T == 0)%Q).
      { unfold Qeq, inject_Z. cbn [Qnum Qden]. lia. }
      apply Rlt_Qlt. rewrite Q2R_0, (Q2R_wien _ N), Q2R_inject_Z.
      apply IZR_lt in Hneg.
      assert (0 < 2.898e-3 / - IZR T) by (apply Rdiv_lt_0_compat; lra).
      replace (2.898e-3 / IZR T) with (- (2.898e-3 / - IZR T))
        by (field; lra).
      lra.
Qed.

Lemma maxlamda_errors_witness :
  (Z.abs (-5) < 2 ^ 1023)%Z /\
  exists m : Q, maxlamda (inject_Z (-5)) = Ok m /\ (m < 0)%Q.
Proof.
  assert (H : (Z.abs (-5) < 2 ^ 1023)%Z) by reflexivity.
  split; [exact H|].
  apply (proj2 (proj2 (maxlamda_errors (-5) H))). reflexivity.
Defined.

(** X5: over the integer temperatures from 2100 to 20000 a higher
    temperature gives a strictly shorter peak wavelength. *)
Theorem maxlamda_displacement (T1 T2 : Z) :
  (2100 <= T1)%Z -> (T1 < T2)%Z -> (T2 <= 20000)%Z ->
  exists m1 m2 : Q,
    maxlamda (inject_Z T1) = Ok m1 /\ maxlamda (inject_Z T2) = Ok m2
    /\ (m2 < m1)%Q.
Proof.
  intros H1 H12 H2.
  assert (N1 : T1 <> 0%Z) by lia. assert (N2 : T2 <> 0%Z) by lia.
  rewrite (maxlamda_inject_Z T1 N1), (maxlamda_inject_Z T2 N2).
  do 2 eexists. split; [reflexivity|]. split; [reflexivity|].
  assert (Q1 : ~ (inject_Z T1 == 0)%Q)
    by (unfold Qeq, inject_Z; cbn [Qnum Qden]; lia).
  assert (Q2 : ~ (inject_Z T2 == 0)%Q)
    by (unfold Qeq, inject_Z; cbn [Qnum Qden]; lia).
  apply Rlt_Qlt. rewrite (Q2R_wien _ Q1), (Q2R_wien _ Q2), !Q2R_inject_Z.
  assert (R1 : 0 < IZR T1) by (apply IZR_lt; lia).
  assert (R12 : IZR T1 < IZR T2) by (apply IZR_lt; exact H12).
  unfold Rdiv. apply Rmult_lt_compat_l; [lra|].
  apply Rinv_lt_contravar; [|exact R12].
  apply Rmult_lt_0_compat; lra.
Qed.

Lemma maxlamda_displacement_witness :
  (2100 <= 3000)%Z /\ (3000 < 6000)%Z /\ (6000 <= 20000)%Z /\
  exists m1 m2 : Q,
    maxlamda (inject_Z 3000) = Ok m1 /\ maxlamda (inject_Z 6000) = Ok m2
    /\ (m2 < m1)%Q.
Proof.
  assert (H1 : (2100 <= 3000)%Z) by lia.
  assert (H2 : (3000 < 6000)%Z) by lia.
  assert (H3 : (6000 <= 20000)%Z) by lia.
  split; [exact H1|]. split; [exact H2|]. split; [exact H3|].
  exact (maxlamda_displacement 3000 6000 H1 H2 H3).
Defined.



(** ** More on the colour lookup *)

Lemma loc_rgb_app (df1 df2 : DataFrame) (T : Z) :
  loc_rgb (df1 ++ df2) T = (loc_rgb df1 T ++ loc_rgb df2 T)%list.
Proof. unfold loc_rgb. rewrite filter_app, map_app. reflexivity. Qed.

(** X7: on a table made of two parts the lookup answers from the first
    part whenever that has a row for [T], and from the second part
    otherwise: among rows with the same temperature the earliest wins. *)
Theorem colorval_app (df1 df2 : DataFrame) (T : Z) :
  colorval (df1 ++ df2) T
  = match colorval df1 T with
    | Ok v => Ok v
    | Raise _ => colorval df2 T
    end.
Proof.
  unfold colorval. rewrite loc_rgb_app.
  destruct (loc_rgb df1 T); reflexivity.
Qed.

Lemma filter_filter_keep (keep : Row -> bool) (df : DataFrame) (T : Z) :
  (forall r : Row, In r df -> Temperature r = T -> keep r = true) ->
  filter (fun r => (Temperature r =? T)%Z) (filter keep df)
  = filter (fun r => (Temperature r =? T)%Z) df.
Proof.
  induction df as [|r df IH]; intro Hk; [reflexivity|].
  cbn [filter].
  assert (IH' := IH (fun r' Hr' => Hk r' (or_intror Hr'))).
  destruct (Temperature r =? T)%Z eqn:E.
  - apply Z.eqb_eq in E. rewrite (Hk r (or_introl eq_refl) E).
    cbn [filter]. rewrite (proj2 (Z.eqb_eq _ _) E), IH'. reflexivity.
  - destruct (keep r); cbn [filter]; rewrite ?E; exact IH'.
Qed.

(** X8: dropping rows from the table does not change the lookup at [T]
    as long as every row with temperature [T] is kept. *)
Theorem colorval_other_rows (keep : Row -> bool) (df : DataFrame) (T : Z) :
  (forall r : Row, In r df -> Temperature r = T -> keep r = true) ->
  colorval (filter keep df) T = colorval df T.
Proof.
  intro Hk. unfold colorval, loc_rgb.
  rewrite (filter_filter_keep keep df T Hk). reflexivity.
Qed.

Lemma colorval_other_rows_witness :
  (forall r : Row, In r sample_table -> Temperature r = 3000%Z ->
     (Temperature r <? 5000)%Z = true)
  /\ colorval (filter (fun r => (Temperature r <? 5000)%Z) sample_table) 3000
     = colorval sample_table 3000.
Proof.
  assert (H : forall r : Row, In r sample_table -> Temperature r = 3000%Z ->
                (Temperature r <? 5000)%Z = true).
  { intros r _ E. rewrite E. reflexivity. }
  split; [exact H|].
  exact (colorval_other_rows _ sample_table 3000 H).
Defined.

(** ** More on the callback *)

Lemma colorval_cases (df : DataFrame) (T : Z) :
  (exists v : RGB, colorval df T = Ok v
                   /\ exists r : Row, In r df /\ Temperature r = T)
  \/ (colorval df T = Raise IndexError
      /\ forall r : Row, In r df -> Temperature r <> T).
Proof.
  destruct (colorval df T) as [v|e] eqn:E.
  - left. exists v. split; [reflexivity|].
    destruct (colorval_Ok df T v E) as [r [Hin [HT _]]]. exists r. auto.
  - right.
    assert (Hno : forall r : Row, In r df -> Temperature r <> T).
    { intros r Hin HT.
      destruct (colorval_found df T (ex_intro _ r (conj Hin HT))) as [v Hv].
      congruence. }
    rewrite (colorval_missing df T Hno) in E. injection E as <-.
    split; [reflexivity | exact Hno].
Qed.

Lemma decorations_no_show (xmax ymax : R) : ~ In show (decorations xmax ymax).
Proof.
  unfold decorations. cbn [In]. intro H.
  repeat (destruct H as [H|H]; [discriminate|]). exact H.
Qed.

(** X9: for a temperature in the 64-bit integer range, a run of the
    callback ends normally exactly when [T] is not zero and the table has
    a row for [T], and these are exactly the runs that call [show]; it
    raises [ZeroDivisionError] exactly when [T] is zero and [IndexError]
    exactly when [T] is not zero and has no row. *)
Theorem g_shows_iff (df : DataFrame) (xmax ymax : R) (T : Z) :
  (Z.abs T < 2 ^ 63)%Z ->
  (snd (g df xmax ymax T) = Ok tt
   <-> T <> 0%Z /\ exists r : Row, In r df /\ Temperature r = T)
  /\ (In show (fst (g df xmax ymax T))
      <-> T <> 0%Z /\ exists r : Row, In r df /\ Temperature r = T)
  /\ (snd (g df xmax ymax T) = Raise ZeroDivisionError <-> T = 0%Z)
  /\ (snd (g df xmax ymax T) = Raise IndexError
      <-> T <> 0%Z /\ forall r : Row, In r df -> Temperature r <> T).
Proof.
  intros _.
  destruct (Z.eq_dec T 0) as [->|HT].
  - rewrite g_zero. cbn [fst snd].
    split; [|split; [|split]].
    + split; [discriminate | intros [H _]; exfalso; apply H; reflexivity].
    + split; [|intros [H _]; exfalso; apply H; reflexivity].
      intros [H|H]; [discriminate | contradiction].
    + split; reflexivity.
    + split; [discriminate | intros [H _]; exfalso; apply H; reflexivity].
  - destruct (colorval_cases df T) as [[v [Hv Hr]]|[He Hno]].
    + rewrite (g_found df xmax ymax T v HT Hv). cbn [fst snd].
      split; [|split; [|split]].
      * split; [intros _; split; assumption | reflexivity].
      * split; [intros _; split; assumption|].
        intros _. right. right. apply in_or_app. right. cbn [In]. tauto.
      * split; [discriminate | intro; contradiction].
      * split; [discriminate|]. intros [_ Hno].
        destruct Hr as [r [Hin Hr]]. exfalso. exact (Hno r Hin Hr).
    + rewrite (g_missing df xmax ymax T _ HT He). cbn [fst snd].
      split; [|split; [|split]].
      * split; [discriminate|]. intros [_ [r [Hin Hr]]].
        exfalso. exact (Hno r Hin Hr).
      * split.
        -- intros [H|[H|H]]; [discriminate | discriminate |].
           exfalso. exact (decorations_no_show _ _ H).
        -- intros [_ [r [Hin Hr]]]. exfalso. exact (Hno r Hin Hr).
      * split; [discriminate | intro; contradiction].
      * split; [intros _; split; assumption | reflexivity].
Qed.

Lemma g_shows_iff_witness :
  (Z.abs 3000 < 2 ^ 63)%Z /\ snd (g sample_table 2000 1 3000) = Ok tt.
Proof.
  assert (H : (Z.abs 3000 < 2 ^ 63)%Z) by reflexivity.
  split; [exact H|].
  apply (proj1 (g_shows_iff sample_table 2000 1 3000 H)).
  split; [discriminate|].
  exists {| Temperature := 3000;
            rgb := {| red := 255; green := 3000 / 100; blue := 0 |} |}.
  split; [|reflexivity].
  unfold sample_table. apply in_map_iff. exists 3000%Z.
  split; [reflexivity|].
  apply positions_T_slider. split; [lia | reflexivity].
Defined.

(** X10: when [T], in the 64-bit integer range, is not zero and the table
    has no row for it, the run
    raises [IndexError] after 17 drawing calls; they are the first 17 calls
    of the run with a table that has the row, whose 4 further calls end
    with [show]: the failed run has drawn the curve, the marker and the
    bands but never shows the figure. *)
Theorem g_failure_prefix (df df' : DataFrame) (xmax ymax : R) (T : Z) :
  (Z.abs T < 2 ^ 63)%Z ->
  T <> 0%Z ->
  (forall r : Row, In r df -> Temperature r <> T) ->
  (exists r : Row, In r df' /\ Temperature r = T) ->
  snd (g df xmax ymax T) = Raise IndexError
  /\ List.length (fst (g df xmax ymax T)) = 17%nat
  /\ exists rest : list Call,
       fst (g df' xmax ymax T) = (fst (g df xmax ymax T) ++ rest)%list
       /\ List.length rest = 4%nat
       /\ last rest grid = show.
Proof.
  intros _ HT Hno Hr.
  pose proof (colorval_missing df T Hno) as He.
  destruct (colorval_found df' T Hr) as [v Hv].
  rewrite (g_missing df xmax ymax T _ HT He).
  rewrite (g_found df' xmax ymax T v HT Hv). cbn [fst snd].
  split; [reflexivity|]. split; [reflexivity|].
  eexists. split; [|split].
  - rewrite <- !app_comm_cons. reflexivity.
  - reflexivity.
  - reflexivity.
Qed.

Lemma g_failure_prefix_witness :
  (Z.abs 3000 < 2 ^ 63)%Z
  /\ 3000%Z <> 0%Z
  /\ (forall r : Row, In r [] -> Temperature r <> 3000%Z)
  /\ (exists r : Row, In r sample_table /\ Temperature r = 3000%Z)
  /\ snd (g [] 2000 1 3000) = Raise IndexError.
Proof.
  assert (H0 : (Z.abs 3000 < 2 ^ 63)%Z) by reflexivity.
  assert (H1 : 3000%Z <> 0%Z) by discriminate.
  assert (H2 : forall r : Row, In r [] -> Temperature r <> 3000%Z)
    by (intros r []).
  assert (H3 : exists r : Row, In r sample_table /\ Temperature r = 3000%Z).
  { exists {| Temperature := 3000;
              rgb := {| red := 255; green := 3000 / 100; blue := 0 |} |}.
    split; [|reflexivity].
    unfold sample_table. apply in_map_iff. exists 3000%Z.
    split; [reflexivity|].
    apply positions_T_slider. split; [lia | reflexivity]. }
  repeat (split; [assumption|]).
  exact (proj1 (g_failure_prefix [] sample_table 2000 1 3000 H0 H1 H2 H3)).
Defined.

Lemma g_spans (df : DataFrame) (xmax ymax : R) (T : Z) :
  T <> 0%Z ->
  spans (fst (g df xmax ymax T))
  = [(700, xmax); (635, 700); (590, 635); (560, 590); (520, 560);
     (490, 520); (450, 490); (400, 450); (10, 400)].
Proof.
  intro HT.
  destruct (colorval df T) as [v|e] eqn:E.
  - rewrite (g_found df xmax ymax T v HT E). reflexivity.
  - rewrite (g_missing df xmax ymax T e HT E). reflexivity.
Qed.

Ltac in_list := first [left; reflexivity | right; in_list].

(** X11: when [T], in the 64-bit integer range, is not zero and the right
    axis limit is at least 700,
    the colour bands of a run cover every abscissa from 10 to that limit,
    and two different bands meet at most in an end point. *)
Theorem bands_tile (df : DataFrame) (xmax ymax : R) (T : Z) :
  (Z.abs T < 2 ^ 63)%Z -> T <> 0%Z -> 700 <= xmax ->
  (forall x : R, 10 <= x <= xmax ->
     exists a b : R,
       In (a, b) (spans (fst (g df xmax ymax T))) /\ a <= x <= b)
  /\ (forall a b a' b' : R,
        In (a, b) (spans (fst (g df xmax ymax T))) ->
        In (a', b') (spans (fst (g df xmax ymax T))) ->
        (a, b) <> (a', b') -> b <= a' \/ b' <= a).
Proof.
  intros _ HT Hx. rewrite (g_spans df xmax ymax T HT). split.
  - intros x [H10 Hmax]. cbn [In].
    destruct (Rle_lt_dec 700 x); [exists 700, xmax; split; [in_list | lra]|].
    destruct (Rle_lt_dec 635 x); [exists 635, 700; split; [in_list | lra]|].
    destruct (Rle_lt_dec 590 x); [exists 590, 635; split; [in_list | lra]|].
    destruct (Rle_lt_dec 560 x); [exists 560, 590; split; [in_list | lra]|].
    destruct (Rle_lt_dec 520 x); [exists 520, 560; split; [in_list | lra]|].
    destruct (Rle_lt_dec 490 x); [exists 490, 520; split; [in_list | lra]|].
    destruct (Rle_lt_dec 450 x); [exists 450, 490; split; [in_list | lra]|].
    destruct (Rle_lt_dec 400 x); [exists 400, 450; split; [in_list | lra]|].
    exists 10, 400. split; [in_list | lra].
  - intros a b a' b' H H' Hne. cbn [In] in H, H'.
    repeat (destruct H as [H|H]; [injection H as <- <-|]); try contradiction;
      repeat (destruct H' as [H'|H']; [injection H' as <- <-|]);
      try contradiction; try (exfalso; apply Hne; reflexivity); lra.
Qed.

(** ** The plotted data *)

Lemma length_planck_array (wav : list Q) (T : Z) :
  List.length (planck_array wav T) = List.length wav.
Proof. unfold planck_array. apply List.length_map. Qed.

Lemma lamda_pos (w : Q) : In w lamda -> 0 < Q2R w.
Proof.
  intro H. apply lamda_In in H. destruct H as [i [_ ->]].
  apply Q2R_pos. exact (sample_pos i).
Qed.

Lemma planck_array_pos (wav : list Q) (T : Z) :
  (forall w : Q, In w wav -> 0 < Q2R w) -> (0 < T)%Z ->
  forall y : R, In y (planck_array wav T) -> 0 < y.
Proof.
  intros Hw HT y Hy. unfold planck_array in Hy.
  apply in_map_iff in Hy. destruct Hy as [w [<- Hin]].
  unfold planck. cbv zeta.
  apply Rdiv_lt_0_compat; [exact numerator_pos|].
  apply denominator_pos; [exact (Hw w Hin) | apply IZR_lt; exact HT].
Qed.

(** X12: for an integer temperature from 2100 to 20000 the one [plot]
    call of a run receives
    398 abscissae and 398 ordinates, the [i]-th abscissa being 10 + 5 i
    (nanometres), and every ordinate is strictly positive. *)
Theorem plot_well_formed (df : DataFrame) (xmax ymax : R) (T : Z) :
  (2100 <= T <= 20000)%Z ->
  exists xs ys : list R,
    plotted (fst (g df xmax ymax T)) = [(xs, ys)]
    /\ List.length xs = 398%nat /\ List.length ys = 398%nat
    /\ (forall i : nat, (i < 398)%nat -> nth i xs 0 = 10 + 5 * INR i)
    /\ (forall y : R, In y ys -> 0 < y).
Proof.
  intros [Hlo Hhi]. assert (HT : (0 < T)%Z) by lia.
  exists (map (fun w => Q2R w * 1e9) lamda), (planck_array lamda T).
  split; [apply g_plotted|].
  split; [rewrite List.length_map; exact lamda_length|].
  split; [rewrite length_planck_array; exact lamda_length|].
  split.
  - intros i Hi.
    rewrite (nth_indep _ 0 (Q2R 0%Q * 1e9))
      by (rewrite List.length_map, lamda_length; exact Hi).
    rewrite (map_nth (fun w => Q2R w * 1e9)).
    rewrite (lamda_nth i Hi). fold (sample i). rewrite Q2R_sample. lra.
  - exact (planck_array_pos lamda T lamda_pos HT).
Qed.

Lemma plot_well_formed_witness :
  (2100 <= 3000 <= 20000)%Z /\
  exists xs ys : list R,
    plotted (fst (g [] 2000 1 3000)) = [(xs, ys)]
    /\ List.length xs = 398%nat /\ List.length ys = 398%nat.
Proof.
  assert (H : (2100 <= 3000 <= 20000)%Z) by lia.
  split; [exact H|].
  destruct (plot_well_formed [] 2000 1 3000 H) as [xs [ys [E [L1 [L2 _]]]]].
  exists xs, ys. repeat split; assumption.
Defined.

(** X13: for integer temperatures 2100 <= T1 < T2 <= 20000 the sampled
    curve at [T2]
    lies strictly above the sampled curve at [T1], sample by sample. *)
Theorem hotter_curve_above (T1 T2 : Z) :
  (2100 <= T1)%Z -> (T1 < T2)%Z -> (T2 <= 20000)%Z ->
  forall i : nat, (i < 398)%nat ->
    nth i (planck_array lamda T1) 0 < nth i (planck_array lamda T2) 0.
Proof.
  intros Hlo H12 Hhi i Hi. assert (H1 : (0 < T1)%Z) by lia.
  rewrite !nth_planck_array by exact Hi.
  unfold planck. cbv zeta.
  pose proof (Q2R_pos _ (sample_pos i)) as Hw.
  apply quotient_antitone.
  - exact numerator_pos.
  - apply denominator_pos; [exact Hw | apply IZR_lt; lia].
  - apply denominator_antitone_T;
      [exact Hw | apply IZR_lt; exact H1 | apply IZR_lt; exact H12].
Qed.

Lemma hotter_curve_above_witness :
  (2100 <= 3000)%Z /\ (3000 < 3100)%Z /\ (3100 <= 20000)%Z /\
  nth 100 (planck_array lamda 3000) 0 < nth 100 (planck_array lamda 3100) 0.
Proof.
  assert (H1 : (2100 <= 3000)%Z) by lia.
  assert (H2 : (3000 < 3100)%Z) by lia.
  assert (H3 : (3100 <= 20000)%Z) by lia.
  split; [exact H1|]. split; [exact H2|]. split; [exact H3|].
  apply (hotter_curve_above 3000 3100 H1 H2 H3 100). lia.
Defined.

Lemma marker_nm (T : Z) :
  T <> 0%Z -> Q2R ((2.898 * 1e-3) / inject_Z T) * 1e9 = 2898000 / IZR T.
Proof.
  intro HT.
  assert (N : ~ (inject_Z T == 0)%Q).
  { unfold Qeq, inject_Z. cbn [Qnum Qden]. lia. }
  rewrite (Q2R_wien _ N), Q2R_inject_Z.
  set (u := IZR T).
  replace (2.898e-3 / u * 1e9) with (2.898e-3 * 1e9 * / u)
    by (unfold Rdiv; ring).
  replace (2.898e-3 * 1e9) with 2898000 by lra.
  reflexivity.
Qed.

(** X14: for every temperature the slider can pass, whatever the table
    and the axes limits, the run draws the peak marker at 2898000 / T
    (nanometres), strictly between the first abscissa 10 and the last
    abscissa 1995 of the curve. *)
Theorem marker_position (df : DataFrame) (xmax ymax : R) (T : Z) :
  In T (positions T_slider) ->
  In (axvline (2898000 / IZR T) (2898000 / IZR T)) (fst (g df xmax ymax T))
  /\ 10 < 2898000 / IZR T < 1995.
Proof.
  intro HT. apply positions_T_slider in HT. destruct HT as [[Hlo Hhi] _].
  assert (HT : T <> 0%Z) by lia.
  split.
  - rewrite <- (marker_nm T HT).
    destruct (colorval df T) as [v|e] eqn:E.
    + rewrite (g_found df xmax ymax T v HT E). right. left. reflexivity.
    + rewrite (g_missing df xmax ymax T e HT E). right. left. reflexivity.
  - apply IZR_le in Hlo, Hhi.
    assert (0 < IZR T) by lra.
    split.
    + apply Rmult_lt_reg_r with (IZR T); [assumption|].
      replace (2898000 / IZR T * IZR T) with 2898000 by (field; lra). lra.
    + apply Rmult_lt_reg_r with (IZR T); [assumption|].
      replace (2898000 / IZR T * IZR T) with 2898000 by (field; lra). lra.
Qed.

Lemma marker_position_witness :
  In 3000%Z (positions T_slider) /\
  In (axvline (2898000 / 3000) (2898000 / 3000)) (fst (g [] 2000 1 3000)).
Proof.
  assert (H : In 3000%Z (positions T_slider)).
  { apply positions_T_slider. split; [lia | reflexivity]. }
  split; [exact H|].
  exact (proj1 (marker_position [] 2000 1 3000 H)).
Defined.

Lemma decorations_no_patch (xmax ymax x y w ht : R) (v : RGB) :
  ~ In (add_patch x y w ht v) (decorations xmax ymax).
Proof.
  unfold decorations. cbn [In]. intro H.
  repeat (destruct H as [H|H]; [discriminate|]). exact H.
Qed.

(** X15: a colour swatch drawn by a run always has the colour the lookup
    returns for [T], which is the colour of a table row with exactly that
    temperature, and sits at (1750, ymax / 2) with width 300 and height
    0.2 ymax. *)
Theorem swatch_colour (df : DataFrame) (xmax ymax : R) (T : Z)
    (x y w ht : R) (v : RGB) :
  In (add_patch x y w ht v) (fst (g df xmax ymax T)) ->
  colorval df T = Ok v
  /\ (exists r : Row, In r df /\ Temperature r = T /\ rgb r = v)
  /\ x = 1750 /\ y = ymax / 2 /\ w = 300 /\ ht = 0.2 * ymax.
Proof.
  intro Hin.
  destruct (Z.eq_dec T 0) as [->|HT].
  { rewrite g_zero in Hin. cbn [fst In] in Hin.
    destruct Hin as [H|H]; [discriminate | contradiction]. }
  destruct (colorval df T) as [v'|e] eqn:E.
  - rewrite (g_found df xmax ymax T v' HT E) in Hin. cbn [fst] in Hin.
    destruct Hin as [H|[H|H]]; [discriminate | discriminate |].
    apply in_app_or in H. destruct H as [H|H].
    + exfalso. exact (decorations_no_patch _ _ _ _ _ _ _ H).
    + cbn [In] in H.
      destruct H as [H|[H|[H|[H|H]]]]; try discriminate; [|contradiction].
      injection H as <- <- <- <- <-.
      split; [reflexivity|]. split; [exact (colorval_Ok df T v' E)|].
      repeat split.
  - rewrite (g_missing df xmax ymax T e HT E) in Hin. cbn [fst] in Hin.
    destruct Hin as [H|[H|H]]; [discriminate | discriminate |].
    exfalso. exact (decorations_no_patch _ _ _ _ _ _ _ H).
Qed.

Lemma swatch_colour_witness :
  In (add_patch 1750 (1 / 2) 300 (0.2 * 1)
        {| red := 255; green := 30; blue := 0 |})
     (fst (g sample_table 2000 1 3000))
  /\ colorval sample_table 3000 = Ok {| red := 255; green := 30; blue := 0 |}.
Proof.
  assert (H : In (add_patch 1750 (1 / 2) 300 (0.2 * 1)
                    {| red := 255; green := 30; blue := 0 |})
                 (fst (g sample_table 2000 1 3000))).
  { rewrite (g_found sample_table 2000 1 3000
               {| red := 255; green := 30; blue := 0 |});
      [|discriminate | reflexivity].
    cbn [fst]. right. right. apply in_or_app. right.
    right. left. reflexivity. }
  split; [exact H|].
  exact (proj1 (swatch_colour sample_table 2000 1 3000 _ _ _ _ _ H)).
Defined.

Lemma bands_tile_witness :
  (Z.abs 3000 < 2 ^ 63)%Z /\ 3000%Z <> 0%Z /\ 700 <= 2000 /\
  exists a b : R,
    In (a, b) (spans (fst (g [] 2000 1 3000))) /\ a <= 550 <= b.
Proof.
  assert (H0 : (Z.abs 3000 < 2 ^ 63)%Z) by reflexivity.
  assert (H1 : 3000%Z <> 0%Z) by discriminate.
  assert (H2 : 700 <= 2000) by lra.
  split; [exact H0|]. split; [exact H1|]. split; [exact H2|].
  apply (proj1 (bands_tile [] 2000 1 3000 H0 H1 H2)). lra.
Defined.
